(** * SMO support-vector machine: a shallow embedding of [SVM_final_main.ipynb]

    The notebook defines the methods of one Python class: a soft-margin SVM
    trained by Sequential Minimal Optimization.  Every method is embedded
    below under its own name.

    Modelling conventions.
    - numpy floats are read as rationals [Q] for everything structural:
      control flow, indexing, error paths and the formulas evaluated; [1e-6]
      is [1 # 1000000] and comparisons are the decidable ones of [Q].
    - What holds only up to rounding is stated over IEEE-754 binary64: the
      methods concerned are embedded a second time in [Module Binary64].
    - 1-D arrays are [list Q], 2-D arrays are lists of rows.
    - Python exceptions are explicit: every fallible operation returns a
      [result], and the state is threaded by hand where a method mutates
      [self].
    - [np.exp] and [np.random.shuffle] are library functions outside the
      notebook; they enter through the classes [Exp] and [RandomSource]. *)

From Stdlib Require Import QArith Qabs Qminmax Lqa String Bool Arith Lia Permutation List.
From Stdlib Require Import Sorted SpecFloat.
Import ListNotations.

Local Open Scope Q_scope.

(** ** Python exceptions and the error monad *)

Inductive exn : Type :=
| IndexError
| ValueError
| ZeroDivisionError
| UnboundLocalError.

Inductive result (A : Type) : Type :=
| Ok (a : A)
| Raise (e : exn).

Arguments Ok {A} a.
Arguments Raise {A} e.

Definition bind {A B : Type} (r : result A) (k : A -> result B) : result B :=
  match r with
  | Ok a => k a
  | Raise e => Raise e
  end.

Notation "x <- c ;; k" := (bind c (fun x => k))
  (at level 61, c at next level, right associativity).

(** A [for] loop whose body may raise: the accumulator is the mutated state. *)
Fixpoint for_each {A S : Type} (body : S -> A -> result S) (xs : list A) (s : S)
  : result S :=
  match xs with
  | [] => Ok s
  | x :: xs' => s' <- body s x ;; for_each body xs' s'
  end.

(** ** Python and numpy primitives *)

Module Py.

(** [l[i]] for a non-negative index. *)
Definition getitem {A : Type} (l : list A) (i : nat) : result A :=
  match nth_error l i with
  | Some x => Ok x
  | None => Raise IndexError
  end.

Fixpoint update {A : Type} (l : list A) (i : nat) (v : A) : list A :=
  match l, i with
  | [], _ => []
  | _ :: t, O => v :: t
  | h :: t, S i' => h :: update t i' v
  end.

(** [l[i] = v]: in place, and an [IndexError] out of range. *)
Definition setitem {A : Type} (l : list A) (i : nat) (v : A) : result (list A) :=
  if (i <? length l)%nat then Ok (update l i v) else Raise IndexError.

(** [K[i][j]] *)
Definition getitem2 (K : list (list Q)) (i j : nat) : result Q :=
  row <- getitem K i ;; getitem row j.

(** [K[i][j] = v] *)
Definition setitem2 (K : list (list Q)) (i j : nat) (v : Q)
  : result (list (list Q)) :=
  row <- getitem K i ;;
  row' <- setitem row j v ;;
  setitem K i row'.

Definition Qltb (x y : Q) : bool := negb (Qle_bool y x).

(** Python's [max(a, b)] returns [b] only when [b > a]; [min(a, b)]
    returns [b] only when [b < a]. *)
Definition max (a b : Q) : Q := if Qltb a b then b else a.
Definition min (a b : Q) : Q := if Qltb b a then b else a.

(** [np.zeros(k)] and [np.zeros((r, c))] *)
Definition zeros (k : nat) : list Q := repeat 0 k.
Definition zeros2 (r c : nat) : list (list Q) := repeat (zeros c) r.

(** Elementwise binary operation on 1-D arrays with numpy's broadcasting:
    equal lengths, or one operand of length one. *)
Definition broadcast2 (f : Q -> Q -> Q) (a b : list Q) : result (list Q) :=
  if (length a =? length b)%nat then Ok (map (fun p => f (fst p) (snd p)) (combine a b))
  else match a, b with
       | [x], _ => Ok (map (fun y => f x y) b)
       | _, [y] => Ok (map (fun x => f x y) a)
       | _, _ => Raise ValueError
       end.

Definition mul : list Q -> list Q -> result (list Q) := broadcast2 Qmult.
Definition sub : list Q -> list Q -> result (list Q) := broadcast2 Qminus.

(** [np.sum] of a 1-D array *)
Fixpoint sum (a : list Q) : Q :=
  match a with
  | [] => 0
  | x :: a' => x + sum a'
  end.

Fixpoint dotq (a b : list Q) : Q :=
  match a, b with
  | x :: a', y :: b' => x * y + dotq a' b'
  | _, _ => 0
  end.

(** [np.dot] of two 1-D arrays: the lengths must agree. *)
Definition dot (a b : list Q) : result Q :=
  if (length a =? length b)%nat then Ok (dotq a b) else Raise ValueError.

Definition column (K : list (list Q)) (j : nat) : list Q :=
  map (fun row => nth j row 0) K.

Definition ncols (K : list (list Q)) : nat := length (hd [] K).

(** [np.dot(v, K)] of a 1-D array and a 2-D array: entry [j] is the
    product of [v] with column [j]. *)
Definition dot_vm (v : list Q) (K : list (list Q)) : result (list Q) :=
  if (length v =? length K)%nat
  then Ok (map (fun j => dotq v (column K j)) (seq 0 (ncols K)))
  else Raise ValueError.

(** [features.shape] of a 2-D array given by its rows. *)
Definition shape (a : list (list Q)) : result (nat * nat) :=
  let n := ncols a in
  if forallb (fun row => (length row =? n)%nat) a
  then Ok (length a, n) else Raise ValueError.

End Py.

(** [np.exp], kept abstract: it has no exact value in [Q]. *)
Class Exp : Type := { np_exp : Q -> Q }.

(** The global numpy random generator behind [np.random.shuffle]. *)
Class RandomSource (G : Type) : Type := {
  np_random_shuffle : G -> list nat -> list nat * G;
  np_random_shuffle_perm :
    forall (g : G) (l : list nat), Permutation l (fst (np_random_shuffle g l))
}.

(** ** The model object *)

(** [__init__]: the hyper-parameters. *)
Record config : Type := {
  max_iter : nat;
  _kernel : string;
  C : Q
}.

(** The attributes set by [init_args] and mutated by training. *)
Record svm : Type := {
  cfg : config;
  m : nat;
  n : nat;
  X : list (list Q);
  Y : list Q;
  alpha : list Q;
  b : Q;
  product_matrix : list (list Q);
  E : list Q
}.

Definition set_alpha (s : svm) (a : list Q) : svm :=
  {| cfg := cfg s; m := m s; n := n s; X := X s; Y := Y s; alpha := a;
     b := b s; product_matrix := product_matrix s; E := E s |}.

Definition set_b (s : svm) (v : Q) : svm :=
  {| cfg := cfg s; m := m s; n := n s; X := X s; Y := Y s; alpha := alpha s;
     b := v; product_matrix := product_matrix s; E := E s |}.

Definition set_E (s : svm) (e : list Q) : svm :=
  {| cfg := cfg s; m := m s; n := n s; X := X s; Y := Y s; alpha := alpha s;
     b := b s; product_matrix := product_matrix s; E := e |}.

Definition set_product_matrix (s : svm) (K : list (list Q)) : svm :=
  {| cfg := cfg s; m := m s; n := n s; X := X s; Y := Y s; alpha := alpha s;
     b := b s; product_matrix := K; E := E s |}.

Definition eps : Q := 1 # 1000000.

(** ** [kernel] *)

Definition kernel `{Exp} (name : string) (x1 x2 : list Q) : result Q :=
  if String.eqb name "linear" then Py.dot x1 x2
  else if String.eqb name "poly" then
    d <- Py.dot x1 x2 ;; Ok ((d + 1) ^ 2)
  else if String.eqb name "rbf" then
    d <- Py.sub x1 x2 ;;
    Ok (np_exp (-1 * Py.sum (map (fun t => t ^ 2) d)))
  else Ok 0.

(** ** [computer_product_matrix]

    The double loop over the upper triangle, for any pairwise function [k]
    in place of [self.kernel]. *)

Definition gram_cell (k : list Q -> list Q -> result Q) (xs : list (list Q))
  (i : nat) (K : list (list Q)) (j : nat) : result (list (list Q)) :=
  xi <- Py.getitem xs i ;;
  xj <- Py.getitem xs j ;;
  v <- k xi xj ;;
  K1 <- Py.setitem2 K i j v ;;
  w <- Py.getitem2 K1 i j ;;
  Py.setitem2 K1 j i w.

Definition gram_row (k : list Q -> list Q -> result Q) (xs : list (list Q))
  (msize : nat) (K : list (list Q)) (i : nat) : result (list (list Q)) :=
  for_each (gram_cell k xs i) (seq i (msize - i)) K.

Definition gram (k : list Q -> list Q -> result Q) (xs : list (list Q))
  (msize : nat) : result (list (list Q)) :=
  for_each (gram_row k xs msize) (seq 0 msize) (Py.zeros2 msize msize).

Definition computer_product_matrix `{Exp} (s : svm) : result svm :=
  K <- gram (kernel (_kernel (cfg s))) (X s) (m s) ;;
  Ok (set_product_matrix s K).

(** ** [function_g] and [create_E] *)

Definition function_g (s : svm) (i : nat) : result Q :=
  ay <- Py.mul (alpha s) (Y s) ;;
  row <- Py.getitem (product_matrix s) i ;;
  d <- Py.dot ay row ;;
  Ok (b s + d).

Definition create_E (s : svm) : result svm :=
  ay <- Py.mul (alpha s) (Y s) ;;
  d <- Py.dot_vm ay (product_matrix s) ;;
  e <- Py.sub (map (fun t => t + b s) d) (Y s) ;;
  Ok (set_E s e).

(** ** [init_args] *)

Definition init_args `{Exp} (c : config) (features : list (list Q))
  (labels : list Q) : result svm :=
  mn <- Py.shape features ;;
  let s0 := {| cfg := c; m := fst mn; n := snd mn; X := features; Y := labels;
               alpha := Py.zeros (fst mn); b := 0;
               product_matrix := []; E := [] |} in
  s1 <- computer_product_matrix s0 ;;
  Ok (set_E s1 (map (fun y => b s1 - y) (Y s1))).

(** ** [clip_alpha] and [update_alpha_pair] *)

Definition clip_alpha (_alpha L H : Q) : Q :=
  if Py.Qltb H _alpha then H
  else if Py.Qltb _alpha L then L
  else _alpha.

Definition update_alpha_pair (s : svm) (i1 i2 : nat) : result (bool * svm) :=
  if (i1 =? i2)%nat then Ok (false, s) else
  alpha1_old <- Py.getitem (alpha s) i1 ;;
  alpha2_old <- Py.getitem (alpha s) i2 ;;
  Y1 <- Py.getitem (Y s) i1 ;;
  Y2 <- Py.getitem (Y s) i2 ;;
  E1 <- Py.getitem (E s) i1 ;;
  E2 <- Py.getitem (E s) i2 ;;
  let c := C (cfg s) in
  let L := if Qeq_bool Y1 Y2
           then Py.max 0 (alpha1_old + alpha2_old - c)
           else Py.max 0 (alpha2_old - alpha1_old) in
  let H := if Qeq_bool Y1 Y2
           then Py.min c (alpha1_old + alpha2_old)
           else Py.min c (c + alpha2_old - alpha1_old) in
  K11 <- Py.getitem2 (product_matrix s) i1 i1 ;;
  K22 <- Py.getitem2 (product_matrix s) i2 i2 ;;
  K12 <- Py.getitem2 (product_matrix s) i1 i2 ;;
  let eta := K11 + K22 - 2 * K12 in
  if Qle_bool eta 0 then Ok (false, s) else
  let alpha2_new_unc := alpha2_old + Y2 * (E1 - E2) / eta in
  let alpha2_new := clip_alpha alpha2_new_unc L H in
  let alpha1_new := alpha1_old + Y1 * Y2 * (alpha2_old - alpha2_new) in
  K21 <- Py.getitem2 (product_matrix s) i2 i1 ;;
  let b1_new := b s - E1 - Y1 * K11 * (alpha1_new - alpha1_old)
                - Y2 * K21 * (alpha2_new - alpha2_old) in
  let b2_new := b s - E2 - Y1 * K12 * (alpha1_new - alpha1_old)
                - Y2 * K22 * (alpha2_new - alpha2_old) in
  let b_new :=
    if Py.Qltb 0 alpha1_new && Py.Qltb alpha1_new c then b1_new
    else if Py.Qltb 0 alpha2_new && Py.Qltb alpha2_new c then b2_new
    else (b1_new + b2_new) / 2 in
  a1 <- Py.setitem (alpha s) i1 alpha1_new ;;
  a2 <- Py.setitem a1 i2 alpha2_new ;;
  s' <- create_E (set_alpha (set_b s b_new) a2) ;;
  Ok (true, s').

(** ** [predict], [score] and [decision_function] *)

Definition predict `{Exp} (s : svm) (data : list Q) : result Z :=
  r <- for_each (fun r i =>
         a <- Py.getitem (alpha s) i ;;
         y <- Py.getitem (Y s) i ;;
         x <- Py.getitem (X s) i ;;
         k <- kernel (_kernel (cfg s)) data x ;;
         Ok (r + a * y * k))
       (seq 0 (m s)) (b s) ;;
  Ok (if Py.Qltb 0 r then 1%Z else (-1)%Z).

Definition score `{Exp} (s : svm) (X_test : list (list Q)) (y_test : list Q)
  : result Q :=
  right_count <- for_each (fun (right_count : nat) i =>
         x <- Py.getitem X_test i ;;
         res <- predict s x ;;
         y <- Py.getitem y_test i ;;
         Ok (if Qeq_bool (inject_Z res) y then S right_count else right_count))
       (seq 0 (length X_test)) O ;;
  match length X_test with
  | O => Raise ZeroDivisionError
  | S _ => Ok (inject_Z (Z.of_nat right_count) / inject_Z (Z.of_nat (length X_test)))
  end.

(** The argument of [decision_function]: a 1-D or a 2-D array. *)
Inductive ndarray : Type :=
| Arr1 (v : list Q)
| Arr2 (rows : list (list Q)).

Definition decision_function `{Exp} (s : svm) (X_eval : ndarray)
  : result (list Q) :=
  match X_eval with
  | Arr1 v =>
      r <- for_each (fun r i =>
             a <- Py.getitem (alpha s) i ;;
             y <- Py.getitem (Y s) i ;;
             x <- Py.getitem (X s) i ;;
             k <- kernel (_kernel (cfg s)) v x ;;
             Ok (r + a * y * k))
           (seq 0 (m s)) (b s) ;;
      Ok [r]
  | Arr2 rows =>
      for_each (fun decisions data_point =>
             r <- for_each (fun r i =>
                    a <- Py.getitem (alpha s) i ;;
                    y <- Py.getitem (Y s) i ;;
                    x <- Py.getitem (X s) i ;;
                    k <- kernel (_kernel (cfg s)) data_point x ;;
                    Ok (r + a * y * k))
                  (seq 0 (m s)) (b s) ;;
             Ok (decisions ++ [r]))
           rows []
  end.

(** [support_vector_indices_]: [np.where(self.alpha > 1e-6)[0]] *)
Definition where_ (p : Q -> bool) (a : list Q) : list nat :=
  filter (fun i => p (nth i a 0)) (seq 0 (length a)).

Definition support_vector_indices_ (s : svm) : list nat :=
  where_ (fun a => Py.Qltb eps a) (alpha s).

(** ** [examine_example] and [fit]

    Training threads the model, the random generator and a ghost log of the
    calls made, so that the order of calls can be stated: [Examine i1 s] is
    a call [examine_example(i1)] entered in state [s], [Attempt i1 i2] a call
    [update_alpha_pair(i1, i2)], and [EndPass s] the end of the inner loop of
    one pass of [fit], reached in state [s]. *)

Inductive event : Type :=
| Examine (i1 : nat) (before : svm)
| Attempt (i1 i2 : nat)
| EndPass (after : svm).

Record world (G : Type) : Type := {
  model : svm;
  gen : G;
  calls : list event
}.

Arguments model {G} w.
Arguments gen {G} w.
Arguments calls {G} w.

Definition log {G : Type} (w : world G) (e : event) : world G :=
  {| model := model w; gen := gen w; calls := calls w ++ [e] |}.

Definition set_model {G : Type} (w : world G) (s : svm) : world G :=
  {| model := s; gen := gen w; calls := calls w |}.

Definition set_gen {G : Type} (w : world G) (g : G) : world G :=
  {| model := model w; gen := g; calls := calls w |}.

(** The violation test of [examine_example]. *)
Definition kkt_violated (c a radius : Q) : bool :=
  (Py.Qltb a eps && Py.Qltb radius 0)
  || (Py.Qltb (c - eps) a && Py.Qltb 0 radius)
  || (Qle_bool (0 + eps) a && Qle_bool a (c - eps) && Py.Qltb eps (Qabs radius)).

(** [np.argmax]: the first position of the largest entry. *)
Fixpoint argmax_from (best : Q) (besti i : nat) (l : list Q) : nat :=
  match l with
  | [] => besti
  | x :: l' =>
      if Py.Qltb best x then argmax_from x i (S i) l'
      else argmax_from best besti (S i) l'
  end.

Definition argmax (l : list Q) : result nat :=
  match l with
  | [] => Raise ValueError
  | x :: l' => Ok (argmax_from x 0 1 l')
  end.

(** [a[idx]] with a list of indices. *)
Fixpoint take (a : list Q) (idx : list nat) : result (list Q) :=
  match idx with
  | [] => Ok []
  | i :: idx' => x <- Py.getitem a i ;; xs <- take a idx' ;; Ok (x :: xs)
  end.

(** One logged call of [update_alpha_pair] on the model of the world. *)
Definition attempt {G : Type} (w : world G) (i1 j2 : nat)
  : result (bool * world G) :=
  rs <- update_alpha_pair (model w) i1 j2 ;;
  Ok (fst rs, set_model (log w (Attempt i1 j2)) (snd rs)).

(** The fallback loop over the shuffled indices. *)
Fixpoint scan {G : Type} (i1 : nat) (all_indices : list nat) (w : world G)
  : result (bool * world G) :=
  match all_indices with
  | [] => Ok (false, w)
  | j2 :: rest =>
      if (j2 =? i1)%nat then scan i1 rest w
      else
        r <- attempt w i1 j2 ;;
        if fst r then Ok (true, snd r) else scan i1 rest (snd r)
  end.

Definition examine_example {G : Type} `{RandomSource G} (w0 : world G) (i1 : nat)
  : result (bool * world G) :=
  let w := log w0 (Examine i1 (model w0)) in
  let s := model w in
  g <- function_g s i1 ;;
  y1 <- Py.getitem (Y s) i1 ;;
  let E1 := g - y1 in
  let radius := E1 * y1 in
  a1 <- Py.getitem (alpha s) i1 ;;
  if kkt_violated (C (cfg s)) a1 radius then
    let non_zero_alpha_indices :=
      where_ (fun a => Py.Qltb eps a && Py.Qltb a (C (cfg s) - eps)) (alpha s) in
    let j_candidates :=
      filter (fun k => negb (k =? i1)%nat) non_zero_alpha_indices in
    r <- match j_candidates with
         | [] => Ok (false, w)
         | _ :: _ =>
             es <- take (E s) j_candidates ;;
             k <- argmax (map (fun e => Qabs (e - E1)) es) ;;
             j2 <- Py.getitem j_candidates k ;;
             attempt w i1 j2
         end ;;
    if fst r then Ok (true, snd r)
    else
      let w1 := snd r in
      let sh := np_random_shuffle (gen w1) (seq 0 (m (model w1))) in
      scan i1 (fst sh) (set_gen w1 (snd sh))
  else Ok (false, w).

(** One pass of [fit]: every index in order, then the optional accuracy. *)
Definition fit_pass {G : Type} `{Exp} `{RandomSource G}
  (X_test : option (list (list Q))) (y_test : option (list Q))
  (st : world G * list Q) (passes : nat) : result (world G * list Q) :=
  w <- for_each (fun w i => r <- examine_example w i ;; Ok (snd r))
                (seq 0 (m (model (fst st)))) (fst st) ;;
  let w := log w (EndPass (model w)) in
  match X_test, y_test with
  | Some xt, Some yt =>
      current_accuracy <- score (model w) xt yt ;;
      Ok (w, snd st ++ [current_accuracy])
  | _, _ => Ok (w, snd st)
  end.

Definition fit {G : Type} `{Exp} `{RandomSource G} (c : config)
  (features : list (list Q)) (labels : list Q)
  (X_test : option (list (list Q))) (y_test : option (list Q)) (g : G)
  : result (list Q * world G) :=
  s <- init_args c features labels ;;
  st <- for_each (fit_pass X_test y_test) (seq 0 (max_iter c))
                 ({| model := s; gen := g; calls := [] |}, []) ;;
  match max_iter c with
  | O => Raise UnboundLocalError
  | S _ => Ok (snd st, fst st)
  end.

(** The violation test in the words of the specification (section 4.5). *)
Definition violation (c a radius : Q) : Prop :=
  (a < eps /\ radius < 0)
  \/ (c - eps < a /\ 0 < radius)
  \/ (eps <= a /\ a <= c - eps /\ eps < Qabs radius).

(** ** Well-formedness of a model state

    The shapes that [init_args] establishes, and the data-model conditions
    of the specification, as decidable tests. *)

Definition alpha_at (s : svm) (i : nat) : Q := nth i (alpha s) 0.
Definition Y_at (s : svm) (i : nat) : Q := nth i (Y s) 0.
Definition E_at (s : svm) (i : nat) : Q := nth i (E s) 0.
Definition entry (K : list (list Q)) (i j : nat) : Q := nth j (nth i K []) 0.
Definition K_at (s : svm) (i j : nat) : Q := entry (product_matrix s) i j.

Definition eta (s : svm) (i1 i2 : nat) : Q :=
  K_at s i1 i1 + K_at s i2 i2 - 2 * K_at s i1 i2.

Definition shapes_ok (s : svm) : bool :=
  (length (X s) =? m s)%nat && (length (Y s) =? m s)%nat
  && (length (alpha s) =? m s)%nat && (length (E s) =? m s)%nat
  && (length (product_matrix s) =? m s)%nat
  && forallb (fun row => (length row =? m s)%nat) (product_matrix s).

Definition is_label (y : Q) : bool := Qeq_bool y 1 || Qeq_bool y (-1).

Definition labels_ok (ys : list Q) : bool := forallb is_label ys.

Definition in_box (c a : Q) : bool := Qle_bool 0 a && Qle_bool a c.

Definition alpha_in_box (s : svm) : bool := forallb (in_box (C (cfg s))) (alpha s).

(** [K[i][j] == K[j][i]] on all of [0..m-1]. *)
Definition symmetric (s : svm) : Prop :=
  forall i j : nat, (i < m s)%nat -> (j < m s)%nat -> K_at s i j = K_at s j i.

(** ** The analytic step in the words of the specification (section 4.6) *)

Module Spec.

Definition L (c y1 y2 a1 a2 : Q) : Q :=
  if Qeq_dec y1 y2 then Qmax 0 (a1 + a2 - c) else Qmax 0 (a2 - a1).

Definition H (c y1 y2 a1 a2 : Q) : Q :=
  if Qeq_dec y1 y2 then Qmin c (a1 + a2) else Qmin c (c + a2 - a1).

Definition clip (x lo hi : Q) : Q :=
  if Qlt_le_dec hi x then hi
  else if Qlt_le_dec x lo then lo
  else x.

Definition alpha2_new (c y1 y2 a1 a2 e1 e2 et : Q) : Q :=
  clip (a2 + y2 * (e1 - e2) / et) (L c y1 y2 a1 a2) (H c y1 y2 a1 a2).

Definition alpha1_new (y1 y2 a1 a2 a2n : Q) : Q :=
  a1 + y1 * y2 * (a2 - a2n).

Definition b1 (b_old e1 y1 y2 k11 k21 a1 a2 a1n a2n : Q) : Q :=
  b_old - e1 - y1 * k11 * (a1n - a1) - y2 * k21 * (a2n - a2).

Definition b2 (b_old e2 y1 y2 k12 k22 a1 a2 a1n a2n : Q) : Q :=
  b_old - e2 - y1 * k12 * (a1n - a1) - y2 * k22 * (a2n - a2).

Definition interior (c a : Q) : bool :=
  if Qlt_le_dec 0 a then (if Qlt_le_dec a c then true else false) else false.

Definition bias (c a1n a2n v1 v2 : Q) : Q :=
  if interior c a1n then v1
  else if interior c a2n then v2
  else (v1 + v2) / 2.

(** The pair [(alpha_i1, alpha_i2)] and the bias after the step from [s]. *)
Definition new_alpha2 (s : svm) (i1 i2 : nat) : Q :=
  alpha2_new (C (cfg s)) (Y_at s i1) (Y_at s i2) (alpha_at s i1) (alpha_at s i2)
             (E_at s i1) (E_at s i2) (eta s i1 i2).

Definition new_alpha1 (s : svm) (i1 i2 : nat) : Q :=
  alpha1_new (Y_at s i1) (Y_at s i2) (alpha_at s i1) (alpha_at s i2)
             (new_alpha2 s i1 i2).

Definition new_b (s : svm) (i1 i2 : nat) : Q :=
  bias (C (cfg s)) (new_alpha1 s i1 i2) (new_alpha2 s i1 i2)
    (b1 (b s) (E_at s i1) (Y_at s i1) (Y_at s i2) (K_at s i1 i1) (K_at s i2 i1)
        (alpha_at s i1) (alpha_at s i2) (new_alpha1 s i1 i2) (new_alpha2 s i1 i2))
    (b2 (b s) (E_at s i2) (Y_at s i1) (Y_at s i2) (K_at s i1 i2) (K_at s i2 i2)
        (alpha_at s i1) (alpha_at s i2) (new_alpha1 s i1 i2) (new_alpha2 s i1 i2)).

(** The raw decision value [b + Σ_j α_j·y_j·kernel(x_j, x)], given the
    kernel values [kv_j = kernel(x_j, x)]. *)
Definition raw_decision (s : svm) (kv : list Q) : Q :=
  b s + Py.sum (map (fun j => alpha_at s j * Y_at s j * nth j kv 0) (seq 0 (m s))).

(** [E = (alpha ⊙ y) · K + b·1 − y], entry [i]. *)
Definition error_entry (s : svm) (i : nat) : Q :=
  Py.sum (map (fun j => alpha_at s j * Y_at s j * K_at s j i) (seq 0 (m s)))
  + b s - Y_at s i.

End Spec.

(** ** Concrete instances used to run the model *)

(** A rational stand-in for [np.exp]: [1 / (1 - x + x^2/2)]. *)
#[export] Instance exp_rational : Exp :=
  {| np_exp := fun x => 1 / (1 - x + x * x / 2) |}.

(** A deterministic generator: the shuffle reverses the list. *)
#[export] Instance reversing_source : RandomSource unit :=
  {| np_random_shuffle := fun g l => (rev l, g);
     np_random_shuffle_perm := fun g l => Permutation_rev l |}.

Definition cfg_linear : config :=
  {| max_iter := 2; _kernel := "linear"; C := 1 |}.

Definition two_points : list (list Q) := [[-1; 0]; [1; 0]].
Definition two_labels : list Q := [-1; 1].

(** The state [init_args] builds from [two_points] and [two_labels]. *)
Definition two_points_init : svm :=
  {| cfg := cfg_linear; m := 2; n := 2; X := two_points; Y := two_labels;
     alpha := [0; 0]; b := 0;
     product_matrix := [[1; -1]; [-1; 1]]; E := [1; -1] |}.

(** Two distinct points of the same class, freshly initialised: both cached
    errors are equal, so the analytic step has length zero. *)
Definition same_class_init : svm :=
  {| cfg := cfg_linear; m := 2; n := 2; X := two_points; Y := [-1; -1];
     alpha := [0; 0]; b := 0;
     product_matrix := [[1; -1]; [-1; 1]]; E := [1; 1] |}.

(** The model reached from [two_points_init] by the step on the pair (0, 1):
    its decision value at [x] is the first coordinate of [x]. *)
Definition two_points_trained : svm :=
  {| cfg := cfg_linear; m := 2; n := 2; X := two_points; Y := two_labels;
     alpha := [1 # 2; 1 # 2]; b := 0;
     product_matrix := [[1; -1]; [-1; 1]]; E := [0; 0] |}.

(** The same multipliers with the bias moved to 1: index 0 now violates its
    condition, and index 1 is the only non-bound candidate. *)
Definition two_points_shifted : svm :=
  {| cfg := cfg_linear; m := 2; n := 2; X := two_points; Y := two_labels;
     alpha := [1 # 2; 1 # 2]; b := 1;
     product_matrix := [[1; -1]; [-1; 1]]; E := [1; 1] |}.

Definition four_queries : list (list Q) := [[1; 0]; [-1; 0]; [2; 0]; [3; 0]].
Definition four_labels : list Q := [1; 1; 1; 1].

(** A configuration naming no known kernel. *)
Definition cfg_unknown : config :=
  {| max_iter := 1; _kernel := "sigmoid"; C := 1 |}.

(** [two_points_trained] under that configuration. *)
Definition two_points_unknown : svm :=
  {| cfg := cfg_unknown; m := 2; n := 2; X := two_points; Y := two_labels;
     alpha := [1 # 2; 1 # 2]; b := 0;
     product_matrix := [[0; 0]; [0; 0]]; E := [1; -1] |}.

(** A pairwise function that is not symmetric: the first coordinate of its
    first argument. *)
Definition first_coordinate (x1 x2 : list Q) : result Q := Ok (hd 0 x1).

(** ** The accuracy in the words of the specification: the exact fraction of
    evaluation samples whose prediction equals the true label *)

Definition matches `{Exp} (s : svm) (X_test : list (list Q)) (y_test : list Q)
  : nat :=
  length (filter (fun i =>
            match predict s (nth i X_test []) with
            | Ok p => Qeq_bool (inject_Z p) (nth i y_test 0)
            | Raise _ => false
            end)
          (seq 0 (length X_test))).

Definition accuracy `{Exp} (s : svm) (X_test : list (list Q)) (y_test : list Q)
  : Q :=
  inject_Z (Z.of_nat (matches s X_test y_test))
  / inject_Z (Z.of_nat (length X_test)).

(** ** Reading the ghost log *)

Fixpoint examined (l : list event) : list nat :=
  match l with
  | [] => []
  | Examine i _ :: l' => i :: examined l'
  | _ :: l' => examined l'
  end.

Fixpoint attempts (l : list event) : list (nat * nat) :=
  match l with
  | [] => []
  | Attempt i j :: l' => (i, j) :: attempts l'
  | _ :: l' => attempts l'
  end.

Fixpoint pass_states (l : list event) : list svm :=
  match l with
  | [] => []
  | EndPass s :: l' => s :: pass_states l'
  | _ :: l' => pass_states l'
  end.

(** The log cut at the [EndPass] marks: for each completed pass the indices
    examined, in order, and the state the pass ended in. *)
Fixpoint passes_of (cur : list nat) (l : list event) : list (list nat * svm) :=
  match l with
  | [] => []
  | Examine i _ :: l' => passes_of (cur ++ [i]) l'
  | Attempt _ _ :: l' => passes_of cur l'
  | EndPass s :: l' => (cur, s) :: passes_of [] l'
  end.

(** A stretch of the log made of pair updates for [i1] only. *)
Definition only_attempts (i1 : nat) (l : list event) : Prop :=
  Forall (fun e => exists j : nat, e = Attempt i1 j) l.

(** Every state in which [examine_example] was entered satisfies [P]. *)
Definition entered_in (P : svm -> Prop) (l : list event) : Prop :=
  forall (i : nat) (s : svm), In (Examine i s) l -> P s /\ (i < m s)%nat.

(** The candidates of the first selection tier for [i1]. *)
Definition non_bound (s : svm) (i1 : nat) : list nat :=
  filter (fun k => negb (k =? i1)%nat)
    (where_ (fun a => Py.Qltb eps a && Py.Qltb a (C (cfg s) - eps)) (alpha s)).

(** ** Invariants of training *)

(** The cached errors agree with [E = (alpha ⊙ y)·K + b·1 − y]. *)
Definition cache_consistent (s : svm) : Prop :=
  forall i : nat, (i < m s)%nat -> E_at s i == Spec.error_entry s i.

Definition train_inv (s : svm) : Prop :=
  shapes_ok s = true /\ symmetric s /\ cache_consistent s.

Definition box_inv (s : svm) : Prop :=
  shapes_ok s = true /\ labels_ok (Y s) = true /\ alpha_in_box s = true.

(** What training never changes. *)
Definition same_data (s s' : svm) : Prop :=
  cfg s' = cfg s /\ m s' = m s /\ n s' = n s /\ X s' = X s /\ Y s' = Y s /\
  product_matrix s' = product_matrix s.

(** Every training vector has the dimension recorded by [init_args]. *)
Definition rows_ok (s : svm) : Prop :=
  forall row : list Q, In row (X s) -> length row = n s.

(** A usable evaluation set, when one is supplied: not empty, a label for
    every sample, and samples of the training dimension [d]. *)
Definition eval_ok (d : nat) (X_test : option (list (list Q)))
  (y_test : option (list Q)) : Prop :=
  match X_test, y_test with
  | Some xt, Some yt =>
      xt <> [] /\ (length xt <= length yt)%nat /\
      forall x : list Q, In x xt -> length x = d
  | _, _ => True
  end.

(** The accuracies that [fit] records for the states the passes ended in. *)
Definition trace_of `{Exp} (X_test : option (list (list Q)))
  (y_test : option (list Q)) (states : list svm) : list Q :=
  match X_test, y_test with
  | Some xt, Some yt => map (fun s => accuracy s xt yt) states
  | _, _ => []
  end.

(** ** Loop invariants of the Gram-matrix construction *)

Definition square (size : nat) (K : list (list Q)) : Prop :=
  length K = size /\ forall a : nat, (a < size)%nat -> length (nth a K []) = size.

(** The pairs [(a, c)] of the upper triangle already written when the loops
    stand at row [i], column [j0]. *)
Definition upper_done (i j0 a c : nat) : Prop :=
  (a < i)%nat \/ (a = i /\ (c < j0)%nat).

Definition gram_inv (k : list Q -> list Q -> result Q) (xs : list (list Q))
  (size i j0 : nat) (K : list (list Q)) : Prop :=
  square size K /\
  forall a c : nat, (a <= c)%nat -> (c < size)%nat -> upper_done i j0 a c ->
    k (nth a xs []) (nth c xs []) = Ok (entry K a c) /\ entry K c a = entry K a c.

(** ** Further notions used to state properties of the code *)

(** [support_vectors_]: [self.X[self.alpha > 1e-6]], the rows of [X] selected
    by a boolean mask, which numpy requires to have one entry per row. *)
Definition support_vectors_ (s : svm) : result (list (list Q)) :=
  if (length (alpha s) =? length (X s))%nat
  then Ok (map fst (filter (fun p => Py.Qltb eps (snd p)) (combine (X s) (alpha s))))
  else Raise IndexError.

(** The cached matrix holds the kernel value of every pair of training rows. *)
Definition kernel_matrix `{Exp} (s : svm) : Prop :=
  forall i j : nat, (i < m s)%nat -> (j < m s)%nat ->
    kernel (_kernel (cfg s)) (nth i (X s) []) (nth j (X s) []) = Ok (K_at s i j).

(** Two training points with the same coordinates, freshly initialised. *)
Definition twin_points_init : svm :=
  {| cfg := cfg_linear; m := 2; n := 2; X := [[1; 0]; [1; 0]]; Y := two_labels;
     alpha := [0; 0]; b := 0;
     product_matrix := [[1; 1]; [1; 1]]; E := [1; -1] |}.

(** * The same methods over IEEE-754 binary64

    The program computes in numpy [float64].  The embedding above reads
    those numbers as rationals: that is faithful for control flow, indexing,
    error paths and the formulas that are evaluated, but not for a statement
    that holds only up to rounding.  The methods whose results depend on
    rounding, [clip_alpha], [update_alpha_pair], [create_E], [function_g] and
    the first statement of [examine_example], are therefore embedded a second
    time, operation by operation in the order Python evaluates them, over
    binary64 with round-to-nearest-even, signed zeros, infinities and NaN. *)

(** A binary64 number, in the Standard Library's specification of IEEE-754
    arithmetic (53 bits of precision, infinities at exponent 1024). *)
Definition float64 : Type := spec_float.

Module F64.

Definition prec : Z := 53.
Definition emax : Z := 1024.

Definition add : float64 -> float64 -> float64 := SFadd prec emax.
Definition sub : float64 -> float64 -> float64 := SFsub prec emax.
Definition mul : float64 -> float64 -> float64 := SFmul prec emax.
Definition div : float64 -> float64 -> float64 := SFdiv prec emax.

(** Comparisons: every comparison with NaN is false. *)
Definition ltb : float64 -> float64 -> bool := SFltb.
Definition leb : float64 -> float64 -> bool := SFleb.
Definition eqb : float64 -> float64 -> bool := SFeqb.

(** A Python [int] used in float arithmetic, and the literal [0.0]. *)
Definition of_Z (z : Z) : float64 := binary_normalize prec emax z 0 false.
Definition zero : float64 := S754_zero false.

Definition is_nan (x : float64) : bool :=
  match x with
  | S754_nan => true
  | _ => false
  end.

(** Fused multiply-add: [x * y + z] rounded once.  For finite operands the
    product is formed exactly and the addition rounds the exact sum. *)
Definition fma (x y z : float64) : float64 :=
  match x, y, z with
  | S754_finite sx mx ex, S754_finite sy my ey, S754_finite _ _ _ =>
      add (S754_finite (xorb sx sy) (mx * my) (ex + ey)) z
  | S754_finite _ _ _, S754_finite _ _ _, S754_zero _ => mul x y
  | _, _, _ => add (mul x y) z
  end.

End F64.

Declare Scope f64_scope.
Delimit Scope f64_scope with f64.
Infix "+" := F64.add : f64_scope.
Infix "-" := F64.sub : f64_scope.
Infix "*" := F64.mul : f64_scope.
Infix "/" := F64.div : f64_scope.
Infix "<?" := F64.ltb : f64_scope.
Infix "<=?" := F64.leb : f64_scope.
Infix "=?" := F64.eqb : f64_scope.

(** The order in which two finite numbers of the same sign compare: by
    exponent, then by mantissa. *)
Definition magnitude_le (m1 : positive) (e1 : Z) (m2 : positive) (e2 : Z) : Prop :=
  (e1 < e2)%Z \/ (e1 = e2 /\ (m1 <= m2)%positive).

Module Binary64.

Local Open Scope f64_scope.

(** Python's [max(a, b)] and [min(a, b)], as in [Py]. *)
Definition max (a b : float64) : float64 := if a <? b then b else a.
Definition min (a b : float64) : float64 := if b <? a then b else a.

Definition getitem2 (K : list (list float64)) (i j : nat) : result float64 :=
  row <- Py.getitem K i ;; Py.getitem row j.

Definition broadcast2 (f : float64 -> float64 -> float64) (a b : list float64)
  : result (list float64) :=
  if (length a =? length b)%nat then Ok (map (fun p => f (fst p) (snd p)) (combine a b))
  else match a, b with
       | [x], _ => Ok (map (fun y => f x y) b)
       | _, [y] => Ok (map (fun x => f x y) a)
       | _, _ => Raise ValueError
       end.

Definition column (K : list (list float64)) (j : nat) : list float64 :=
  map (fun row => nth j row F64.zero) K.

Definition ncols (K : list (list float64)) : nat := length (hd [] K).

(** [np.dot] is numpy's.  For two vectors it is a BLAS [dot], for a vector
    and a matrix a BLAS [gemv]; the notebook does not determine in what order,
    or with what intermediate rounding, either accumulates its sums.  Both
    enter as parameters; the shape checks are numpy's own. *)
Class Dot : Type := {
  np_dot_vector : list float64 -> list float64 -> float64;
  np_dot_matrix : list float64 -> list (list float64) -> list float64
}.

Definition dot `{Dot} (a b : list float64) : result float64 :=
  if (length a =? length b)%nat then Ok (np_dot_vector a b) else Raise ValueError.

Definition dot_vm `{Dot} (v : list float64) (K : list (list float64))
  : result (list float64) :=
  if (length v =? length K)%nat then Ok (np_dot_matrix v K) else Raise ValueError.

(** A sum of products accumulated from left to right: every product and
    every sum is rounded. *)
Fixpoint accumulate (acc : float64) (a b : list float64) : float64 :=
  match a, b with
  | x :: a', y :: b' => accumulate (acc + x * y) a' b'
  | _, _ => acc
  end.

(** The same sum accumulated with fused multiply-add: one rounding per term. *)
Fixpoint accumulate_fused (acc : float64) (a b : list float64) : float64 :=
  match a, b with
  | x :: a', y :: b' => accumulate_fused (F64.fma x y acc) a' b'
  | _, _ => acc
  end.

Definition columnwise (d : list float64 -> list float64 -> float64)
  (v : list float64) (K : list (list float64)) : list float64 :=
  map (fun j => d v (column K j)) (seq 0 (ncols K)).

(** Two ways numpy can be built.  In [dot_plain] both products round every
    operation.  In [dot_fused_vectors] the vector-vector product uses fused
    multiply-add, as BLAS kernels compiled for processors that have the
    instruction do, and the vector-matrix product does not. *)
Definition dot_plain : Dot :=
  {| np_dot_vector := accumulate F64.zero;
     np_dot_matrix := columnwise (accumulate F64.zero) |}.

Definition dot_fused_vectors : Dot :=
  {| np_dot_vector := accumulate_fused F64.zero;
     np_dot_matrix := columnwise (accumulate F64.zero) |}.

(** The model object, with [float64] attributes. *)
Record config : Type := {
  max_iter : nat;
  _kernel : string;
  C : float64
}.

Record svm : Type := {
  cfg : config;
  m : nat;
  n : nat;
  X : list (list float64);
  Y : list float64;
  alpha : list float64;
  b : float64;
  product_matrix : list (list float64);
  E : list float64
}.

Definition set_alpha (s : svm) (a : list float64) : svm :=
  {| cfg := cfg s; m := m s; n := n s; X := X s; Y := Y s; alpha := a;
     b := b s; product_matrix := product_matrix s; E := E s |}.

Definition set_b (s : svm) (v : float64) : svm :=
  {| cfg := cfg s; m := m s; n := n s; X := X s; Y := Y s; alpha := alpha s;
     b := v; product_matrix := product_matrix s; E := E s |}.

Definition set_E (s : svm) (e : list float64) : svm :=
  {| cfg := cfg s; m := m s; n := n s; X := X s; Y := Y s; alpha := alpha s;
     b := b s; product_matrix := product_matrix s; E := e |}.

(** [self.b + np.dot(self.alpha * self.Y, self.product_matrix[i])] *)
Definition function_g `{Dot} (s : svm) (i : nat) : result float64 :=
  ay <- broadcast2 F64.mul (alpha s) (Y s) ;;
  row <- Py.getitem (product_matrix s) i ;;
  d <- dot ay row ;;
  Ok (b s + d).

(** [self.E = np.dot(self.alpha * self.Y, self.product_matrix) + self.b - self.Y] *)
Definition create_E `{Dot} (s : svm) : result svm :=
  ay <- broadcast2 F64.mul (alpha s) (Y s) ;;
  d <- dot_vm ay (product_matrix s) ;;
  e <- broadcast2 F64.sub (map (fun t => t + b s) d) (Y s) ;;
  Ok (set_E s e).

Definition clip_alpha (_alpha L H : float64) : float64 :=
  if H <? _alpha then H
  else if _alpha <? L then L
  else _alpha.

Definition update_alpha_pair `{Dot} (s : svm) (i1 i2 : nat) : result (bool * svm) :=
  if (i1 =? i2)%nat then Ok (false, s) else
  alpha1_old <- Py.getitem (alpha s) i1 ;;
  alpha2_old <- Py.getitem (alpha s) i2 ;;
  Y1 <- Py.getitem (Y s) i1 ;;
  Y2 <- Py.getitem (Y s) i2 ;;
  E1 <- Py.getitem (E s) i1 ;;
  E2 <- Py.getitem (E s) i2 ;;
  let c := C (cfg s) in
  let L := if Y1 =? Y2
           then max F64.zero (alpha1_old + alpha2_old - c)
           else max F64.zero (alpha2_old - alpha1_old) in
  let H := if Y1 =? Y2
           then min c (alpha1_old + alpha2_old)
           else min c (c + alpha2_old - alpha1_old) in
  K11 <- getitem2 (product_matrix s) i1 i1 ;;
  K22 <- getitem2 (product_matrix s) i2 i2 ;;
  K12 <- getitem2 (product_matrix s) i1 i2 ;;
  let eta := K11 + K22 - F64.of_Z 2 * K12 in
  if eta <=? F64.zero then Ok (false, s) else
  let alpha2_new_unc := alpha2_old + Y2 * (E1 - E2) / eta in
  let alpha2_new := clip_alpha alpha2_new_unc L H in
  let alpha1_new := alpha1_old + Y1 * Y2 * (alpha2_old - alpha2_new) in
  K21 <- getitem2 (product_matrix s) i2 i1 ;;
  let b1_new := b s - E1 - Y1 * K11 * (alpha1_new - alpha1_old)
                - Y2 * K21 * (alpha2_new - alpha2_old) in
  let b2_new := b s - E2 - Y1 * K12 * (alpha1_new - alpha1_old)
                - Y2 * K22 * (alpha2_new - alpha2_old) in
  let b_new :=
    if (F64.zero <? alpha1_new) && (alpha1_new <? c) then b1_new
    else if (F64.zero <? alpha2_new) && (alpha2_new <? c) then b2_new
    else (b1_new + b2_new) / F64.of_Z 2 in
  a1 <- Py.setitem (alpha s) i1 alpha1_new ;;
  a2 <- Py.setitem a1 i2 alpha2_new ;;
  s' <- create_E (set_alpha (set_b s b_new) a2) ;;
  Ok (true, s').

(** [E1 = self.function_g(i1) - self.Y[i1]], the first statement of
    [examine_example]. *)
Definition examine_example_E1 `{Dot} (s : svm) (i1 : nat) : result float64 :=
  g <- function_g s i1 ;;
  y <- Py.getitem (Y s) i1 ;;
  Ok (g - y).

(** Entry [i] of the vector-matrix product of [create_E] is rounded to the
    same number as the vector-vector product of [function_g] with row [i]. *)
Definition dots_agree `{Dot} (s : svm) (i : nat) : Prop :=
  forall ay row : list float64,
    broadcast2 F64.mul (alpha s) (Y s) = Ok ay ->
    Py.getitem (product_matrix s) i = Ok row ->
    nth_error (np_dot_matrix ay (product_matrix s)) i = Some (np_dot_vector ay row).

Definition in_box (c a : float64) : bool := (F64.zero <=? a) && (a <=? c).

(** *** Concrete states *)

(** [k / 10] as Python rounds it: [tenths 1] is the literal [0.1]. *)
Definition tenths (k : Z) : float64 := F64.of_Z k / F64.of_Z 10.

Definition cfg_linear : config :=
  {| max_iter := 2; _kernel := "linear"; C := F64.of_Z 1 |}.

(** Three points on a line, [x = 2, 1, -1], labelled [+1, +1, -1], with the
    linear kernel, [alpha = (0.1, 0.2, 0.3)] inside the box for [C = 1] and
    [b = 0]; the error cache is yet to be computed. *)
Definition three_points_stale : svm :=
  {| cfg := cfg_linear; m := 3; n := 1;
     X := [[F64.of_Z 2]; [F64.of_Z 1]; [F64.of_Z (-1)]];
     Y := [F64.of_Z 1; F64.of_Z 1; F64.of_Z (-1)];
     alpha := [tenths 1; tenths 2; tenths 3]; b := F64.zero;
     product_matrix := [[F64.of_Z 4; F64.of_Z 2; F64.of_Z (-2)];
                        [F64.of_Z 2; F64.of_Z 1; F64.of_Z (-1)];
                        [F64.of_Z (-2); F64.of_Z (-1); F64.of_Z 1]];
     E := [] |}.

(** The same state with the cache [create_E] stores for it. *)
Definition three_points : svm :=
  Eval vm_compute in
    match @create_E dot_plain three_points_stale with
    | Ok s => s
    | Raise _ => three_points_stale
    end.

(** The state [update_alpha_pair(0, 1)] commits from [three_points]. *)
Definition three_points_updated : svm :=
  Eval vm_compute in
    match @update_alpha_pair dot_plain three_points 0 1 with
    | Ok (_, s) => s
    | Raise _ => three_points
    end.

(** What [init_args] builds for the points [(1,1,1)] and [(2,2,2)], labelled
    [-1] and [+1], with the linear kernel: the Gram entries 3, 6 and 12 are
    sums of small integers, exact however they are accumulated. *)
Definition two_points_init : svm :=
  {| cfg := cfg_linear; m := 2; n := 3;
     X := [[F64.of_Z 1; F64.of_Z 1; F64.of_Z 1]; [F64.of_Z 2; F64.of_Z 2; F64.of_Z 2]];
     Y := [F64.of_Z (-1); F64.of_Z 1];
     alpha := [F64.zero; F64.zero]; b := F64.zero;
     product_matrix := [[F64.of_Z 3; F64.of_Z 6]; [F64.of_Z 6; F64.of_Z 12]];
     E := [F64.of_Z 1; F64.of_Z (-1)] |}.

(** The state the first pass of [fit] reaches from it when [examine_example(0)]
    commits the pair (0, 1), the only pair there is; [examine_example(1)] is
    entered in this state. *)
Definition two_points_updated : svm :=
  Eval vm_compute in
    match @update_alpha_pair dot_fused_vectors two_points_init 0 1 with
    | Ok (_, s) => s
    | Raise _ => two_points_init
    end.

End Binary64.

(** * Proofs *)

(** ** The error monad *)

Lemma bind_Ok {A B : Type} (r : result A) (k : A -> result B) (v : B) :
  bind r k = Ok v -> exists a, r = Ok a /\ k a = Ok v.
Proof.
  destruct r as [a|e]; simpl; intros Hk; [eauto | discriminate].
Qed.

Ltac inv_bind H :=
  let a := fresh "v" in
  let Ha := fresh "Hv" in
  apply bind_Ok in H; destruct H as (a & Ha & H).

(** A loop preserves whatever each iteration preserves. *)
Lemma for_each_invariant {A S : Type} (P : S -> Prop) (body : S -> A -> result S)
  (xs : list A) :
  (forall s x s', In x xs -> P s -> body s x = Ok s' -> P s') ->
  forall s s', P s -> for_each body xs s = Ok s' -> P s'.
Proof.
  induction xs as [|x xs IH]; simpl; intros Hbody s s' HP Hrun.
  - inversion Hrun; subst; exact HP.
  - inv_bind Hrun. apply (IH (fun s0 y s1 Hy => Hbody s0 y s1 (or_intror Hy)) v s');
      [ | exact Hrun ].
    apply (Hbody s x v); auto.
Qed.

(** A loop returns when every iteration does, from any state of the invariant. *)
Lemma for_each_total {A S : Type} (P : S -> Prop) (body : S -> A -> result S)
  (xs : list A) :
  (forall s x, In x xs -> P s -> exists s', body s x = Ok s' /\ P s') ->
  forall s, P s -> exists s', for_each body xs s = Ok s' /\ P s'.
Proof.
  induction xs as [|x xs IH]; simpl; intros Hbody s HP.
  - eauto.
  - destruct (Hbody s x (or_introl eq_refl) HP) as (s1 & Hs1 & HP1).
    rewrite Hs1; simpl. apply IH; auto.
Qed.

(** ** Indexing and in-place update *)

Lemma getitem_nth {A : Type} (l : list A) (i : nat) (d : A) :
  (i < length l)%nat -> Py.getitem l i = Ok (nth i l d).
Proof.
  intros Hi. unfold Py.getitem.
  rewrite (nth_error_nth' l d Hi). reflexivity.
Qed.

Lemma getitem_Ok {A : Type} (l : list A) (i : nat) (x : A) (d : A) :
  Py.getitem l i = Ok x -> (i < length l)%nat /\ nth i l d = x.
Proof.
  unfold Py.getitem. destruct (nth_error l i) as [y|] eqn:Hn; intros Hx;
    [ | discriminate ].
  inversion Hx; subst. split.
  - apply nth_error_Some. congruence.
  - apply nth_error_nth. exact Hn.
Qed.

Lemma update_length {A : Type} (l : list A) (i : nat) (v : A) :
  length (Py.update l i v) = length l.
Proof.
  revert i; induction l as [|h t IH]; intros [|i]; simpl; auto.
Qed.

Lemma nth_update_eq {A : Type} (l : list A) (i : nat) (v d : A) :
  (i < length l)%nat -> nth i (Py.update l i v) d = v.
Proof.
  revert i; induction l as [|h t IH]; intros [|i]; simpl; intros Hi;
    try lia; auto. apply IH; lia.
Qed.

Lemma nth_update_ne {A : Type} (l : list A) (i j : nat) (v d : A) :
  i <> j -> nth j (Py.update l i v) d = nth j l d.
Proof.
  revert i j; induction l as [|h t IH]; intros [|i] [|j]; simpl; intros Hij;
    try congruence; auto.
Qed.

Lemma nth_error_update_ne {A : Type} (l : list A) (i j : nat) (v : A) :
  i <> j -> nth_error (Py.update l i v) j = nth_error l j.
Proof.
  revert i j; induction l as [|h t IH]; intros [|i] [|j]; simpl; intros Hij;
    try congruence; auto.
Qed.

Lemma nth_error_update_eq {A : Type} (l : list A) (i : nat) (v : A) :
  (i < length l)%nat -> nth_error (Py.update l i v) i = Some v.
Proof.
  revert i; induction l as [|h t IH]; intros [|i]; simpl; intros Hi;
    try lia; auto. apply IH; lia.
Qed.

Lemma setitem_Ok {A : Type} (l : list A) (i : nat) (v : A) :
  (i < length l)%nat -> Py.setitem l i v = Ok (Py.update l i v).
Proof.
  intros Hi. unfold Py.setitem.
  destruct (Nat.ltb_spec i (length l)); [reflexivity | lia].
Qed.

Lemma setitem_inv {A : Type} (l l' : list A) (i : nat) (v : A) :
  Py.setitem l i v = Ok l' -> (i < length l)%nat /\ l' = Py.update l i v.
Proof.
  unfold Py.setitem. destruct (Nat.ltb_spec i (length l)); intros Hs;
    [ inversion Hs; auto | discriminate ].
Qed.

(** ** Comparisons *)

Lemma Qltb_lt (x y : Q) : Py.Qltb x y = true <-> x < y.
Proof.
  unfold Py.Qltb. rewrite negb_true_iff.
  destruct (Qle_bool y x) eqn:Hb.
  - apply Qle_bool_iff in Hb. split; [discriminate | intros; lra].
  - split; [ | reflexivity ]. intros _.
    apply Qnot_le_lt. intros Hle. apply Qle_bool_iff in Hle. congruence.
Qed.

Lemma Qltb_ge (x y : Q) : Py.Qltb x y = false <-> y <= x.
Proof.
  unfold Py.Qltb. rewrite negb_false_iff. apply Qle_bool_iff.
Qed.

Ltac qcases :=
  repeat match goal with
  | |- context [Py.Qltb ?x ?y] =>
      let Hb := fresh "Hb" in
      destruct (Py.Qltb x y) eqn:Hb;
      [ apply Qltb_lt in Hb | apply Qltb_ge in Hb ]
  | |- context [Qlt_le_dec ?x ?y] => destruct (Qlt_le_dec x y)
  end.

Lemma Py_max_Qmax (x y : Q) : Py.max x y = Qmax x y.
Proof.
  unfold Py.max, Qmax, GenericMinMax.gmax.
  destruct (Py.Qltb x y) eqn:Hb;
    [ apply Qltb_lt in Hb | apply Qltb_ge in Hb ];
    destruct (Qcompare_spec x y); try reflexivity; lra.
Qed.

Lemma Py_min_Qmin (x y : Q) : Py.min x y = Qmin x y.
Proof.
  unfold Py.min, Qmin, GenericMinMax.gmin.
  destruct (Py.Qltb y x) eqn:Hb;
    [ apply Qltb_lt in Hb | apply Qltb_ge in Hb ];
    destruct (Qcompare_spec x y); try reflexivity; lra.
Qed.

Lemma clip_alpha_clip (x lo hi : Q) : clip_alpha x lo hi = Spec.clip x lo hi.
Proof.
  unfold clip_alpha, Spec.clip. qcases; try reflexivity; lra.
Qed.

Lemma interior_spec (c a : Q) :
  Py.Qltb 0 a && Py.Qltb a c = Spec.interior c a.
Proof.
  unfold Spec.interior. qcases; simpl; try reflexivity; lra.
Qed.

(** ** Shapes *)

Lemma shapes_ok_iff (s : svm) :
  shapes_ok s = true <->
  length (X s) = m s /\ length (Y s) = m s /\ length (alpha s) = m s /\
  length (E s) = m s /\ length (product_matrix s) = m s /\
  (forall i : nat, (i < m s)%nat -> length (nth i (product_matrix s) []) = m s).
Proof.
  unfold shapes_ok. rewrite !andb_true_iff, !Nat.eqb_eq, forallb_forall. split.
  - intros (((((HX & HY) & Ha) & HE) & HK) & Hrows). repeat split; auto.
    intros i Hi. apply Nat.eqb_eq, Hrows, nth_In. lia.
  - intros (HX & HY & Ha & HE & HK & Hrows). repeat split; auto.
    intros row Hrow. apply Nat.eqb_eq.
    destruct (In_nth _ _ [] Hrow) as (i & Hi & <-). apply Hrows. lia.
Qed.

Lemma getitem2_K_at (s : svm) (i j : nat) :
  shapes_ok s = true -> (i < m s)%nat -> (j < m s)%nat ->
  Py.getitem2 (product_matrix s) i j = Ok (K_at s i j).
Proof.
  intros Hs Hi Hj. apply shapes_ok_iff in Hs.
  destruct Hs as (_ & _ & _ & _ & HK & Hrows).
  unfold Py.getitem2, K_at, entry.
  rewrite (getitem_nth _ i []) by lia. simpl.
  apply getitem_nth. rewrite Hrows; auto.
Qed.

Lemma ncols_m (s : svm) : shapes_ok s = true -> Py.ncols (product_matrix s) = m s.
Proof.
  intros Hs. apply shapes_ok_iff in Hs.
  destruct Hs as (_ & _ & _ & _ & HK & Hrows). unfold Py.ncols.
  destruct (product_matrix s) as [|row K] eqn:HKs; simpl in *; [exact HK | ].
  apply (Hrows 0%nat). lia.
Qed.

Lemma broadcast2_same (f : Q -> Q -> Q) (a c : list Q) :
  length a = length c ->
  Py.broadcast2 f a c = Ok (map (fun p => f (fst p) (snd p)) (combine a c)).
Proof.
  intros Hl. unfold Py.broadcast2. rewrite Hl, Nat.eqb_refl. reflexivity.
Qed.

Lemma nth_zip (f : Q -> Q -> Q) (a c : list Q) (i : nat) (d : Q) :
  length a = length c -> (i < length a)%nat ->
  nth i (map (fun p => f (fst p) (snd p)) (combine a c)) d = f (nth i a 0) (nth i c 0).
Proof.
  revert c i; induction a as [|x a IH]; intros [|y c] [|i]; simpl; intros Hl Hi;
    try lia; auto. apply IH; lia.
Qed.

Lemma zip_length (f : Q -> Q -> Q) (a c : list Q) :
  length a = length c ->
  length (map (fun p => f (fst p) (snd p)) (combine a c)) = length a.
Proof.
  intros Hl. rewrite length_map, length_combine. lia.
Qed.

Lemma nth_map_lt {A B : Type} (f : A -> B) (l : list A) (i : nat) (d : B) (d' : A) :
  (i < length l)%nat -> nth i (map f l) d = f (nth i l d').
Proof.
  revert i; induction l as [|x l IH]; intros [|i]; simpl; intros Hi;
    try lia; auto. apply IH; lia.
Qed.

(** [dotq] as a sum over the index range. *)
Lemma dotq_sum (u v : list Q) :
  length u = length v ->
  Py.dotq u v = Py.sum (map (fun j => nth j u 0 * nth j v 0) (seq 0 (length u))).
Proof.
  revert v; induction u as [|x u IH]; intros [|y v]; simpl; intros Hl;
    try discriminate; auto.
  rewrite <- seq_shift, map_map. rewrite <- IH by lia. reflexivity.
Qed.

(** ** [create_E] recomputes every entry from the current multipliers *)

Lemma create_E_run (s : svm) :
  length (Y s) = m s -> length (alpha s) = m s ->
  length (product_matrix s) = m s ->
  (forall i : nat, (i < m s)%nat -> length (nth i (product_matrix s) []) = m s) ->
  exists e : list Q,
    create_E s = Ok (set_E s e) /\ length e = m s /\
    forall i : nat, (i < m s)%nat -> nth i e 0 = Spec.error_entry s i.
Proof.
  intros HY Ha HK Hrows.
  assert (Hnc : Py.ncols (product_matrix s) = m s).
  { unfold Py.ncols. destruct (product_matrix s) as [|row K] eqn:HKs; simpl in *;
      [exact HK | ]. apply (Hrows 0%nat). lia. }
  unfold create_E, Py.mul.
  rewrite broadcast2_same by congruence. simpl.
  unfold Py.dot_vm. rewrite zip_length by congruence.
  rewrite Ha, HK, Nat.eqb_refl. simpl.
  unfold Py.sub. rewrite broadcast2_same
    by (rewrite !length_map, length_seq; congruence).
  simpl. eexists; split; [reflexivity | split].
  - rewrite zip_length; rewrite !length_map, length_seq; congruence.
  - intros i Hi.
    rewrite nth_zip by (rewrite !length_map, length_seq; congruence).
    unfold Spec.error_entry. f_equal.
    rewrite (nth_map_lt _ _ _ 0 0) by (rewrite length_map, length_seq; lia).
    f_equal.
    rewrite (nth_map_lt _ _ _ 0 0%nat) by (rewrite length_seq; lia).
    rewrite seq_nth by lia. simpl.
    rewrite dotq_sum by (unfold Py.column; rewrite zip_length, length_map; congruence).
    rewrite zip_length, Ha by congruence.
    f_equal. apply map_ext_in. intros j Hj. apply in_seq in Hj.
    rewrite nth_zip by lia. unfold alpha_at, Y_at, K_at, entry, Py.column. f_equal.
    apply (nth_map_lt (fun row => nth i row 0)). lia.
Qed.

(** ** [update_alpha_pair] *)

Lemma update_alpha_pair_same (s : svm) (i : nat) :
  update_alpha_pair s i i = Ok (false, s).
Proof.
  unfold update_alpha_pair. rewrite Nat.eqb_refl. reflexivity.
Qed.

Lemma code_L_H (c y1 y2 a1 a2 : Q) :
  (if Qeq_bool y1 y2 then Py.max 0 (a1 + a2 - c) else Py.max 0 (a2 - a1))
  = Spec.L c y1 y2 a1 a2 /\
  (if Qeq_bool y1 y2 then Py.min c (a1 + a2) else Py.min c (c + a2 - a1))
  = Spec.H c y1 y2 a1 a2.
Proof.
  unfold Spec.L, Spec.H. rewrite !Py_max_Qmax, !Py_min_Qmin.
  destruct (Qeq_dec y1 y2) as [Heq|Hne].
  - rewrite (Qeq_eq_bool _ _ Heq). auto.
  - destruct (Qeq_bool y1 y2) eqn:Hb; auto.
    apply Qeq_bool_eq in Hb. contradiction.
Qed.

(** With well-shaped arrays and distinct indices in range the call never
    raises: it either rejects a non-positive [eta] or commits the step. *)
Lemma update_alpha_pair_run (s : svm) (i1 i2 : nat) :
  shapes_ok s = true -> (i1 < m s)%nat -> (i2 < m s)%nat -> i1 <> i2 ->
  update_alpha_pair s i1 i2 =
  if Qle_bool (eta s i1 i2) 0 then Ok (false, s)
  else
    s' <- create_E
            (set_alpha (set_b s (Spec.new_b s i1 i2))
               (Py.update (Py.update (alpha s) i1 (Spec.new_alpha1 s i1 i2))
                          i2 (Spec.new_alpha2 s i1 i2))) ;;
    Ok (true, s').
Proof.
  intros Hs H1 H2 Hne.
  pose proof (proj1 (shapes_ok_iff s) Hs) as (HX & HY & Ha & HE & HK & Hrows).
  unfold update_alpha_pair.
  destruct (Nat.eqb_spec i1 i2) as [|_]; [contradiction | ].
  rewrite (getitem_nth (alpha s) i1 0), (getitem_nth (alpha s) i2 0) by lia.
  rewrite (getitem_nth (Y s) i1 0), (getitem_nth (Y s) i2 0) by lia.
  rewrite (getitem_nth (E s) i1 0), (getitem_nth (E s) i2 0) by lia.
  rewrite !getitem2_K_at by assumption. simpl.
  fold (alpha_at s i1) (alpha_at s i2) (Y_at s i1) (Y_at s i2)
       (E_at s i1) (E_at s i2) (eta s i1 i2).
  destruct (Qle_bool (eta s i1 i2) 0); [reflexivity | ].
  rewrite setitem_Ok by lia. simpl.
  rewrite setitem_Ok by (rewrite update_length; lia). simpl.
  destruct (code_L_H (C (cfg s)) (Y_at s i1) (Y_at s i2) (alpha_at s i1) (alpha_at s i2))
    as [-> ->].
  rewrite clip_alpha_clip, !interior_spec. reflexivity.
Qed.

Lemma update_alpha_pair_commit (s : svm) (i1 i2 : nat) :
  shapes_ok s = true -> (i1 < m s)%nat -> (i2 < m s)%nat -> i1 <> i2 ->
  0 < eta s i1 i2 ->
  exists e : list Q,
    update_alpha_pair s i1 i2 =
      Ok (true,
          set_E (set_alpha (set_b s (Spec.new_b s i1 i2))
                   (Py.update (Py.update (alpha s) i1 (Spec.new_alpha1 s i1 i2))
                              i2 (Spec.new_alpha2 s i1 i2))) e) /\
    length e = m s /\
    forall i : nat, (i < m s)%nat ->
      nth i e 0 =
      Spec.error_entry
        (set_alpha (set_b s (Spec.new_b s i1 i2))
           (Py.update (Py.update (alpha s) i1 (Spec.new_alpha1 s i1 i2))
                      i2 (Spec.new_alpha2 s i1 i2))) i.
Proof.
  intros Hs H1 H2 Hne Heta.
  pose proof (proj1 (shapes_ok_iff s) Hs) as (HX & HY & Ha & HE & HK & Hrows).
  rewrite update_alpha_pair_run by assumption.
  destruct (Qle_bool (eta s i1 i2) 0) eqn:Hb.
  { apply Qle_bool_iff in Hb. lra. }
  destruct (create_E_run
              (set_alpha (set_b s (Spec.new_b s i1 i2))
                 (Py.update (Py.update (alpha s) i1 (Spec.new_alpha1 s i1 i2))
                            i2 (Spec.new_alpha2 s i1 i2))))
    as (e & Hrun & Hlen & Hent); simpl; auto.
  { rewrite !update_length. exact Ha. }
  exists e. rewrite Hrun. simpl. auto.
Qed.

(** The outcome of a call on a well-shaped state, whatever it is. *)
Lemma update_alpha_pair_cases (s : svm) (i1 i2 : nat) :
  shapes_ok s = true -> (i1 < m s)%nat -> (i2 < m s)%nat ->
  (update_alpha_pair s i1 i2 = Ok (false, s) /\ (i1 = i2 \/ eta s i1 i2 <= 0))
  \/
  (i1 <> i2 /\ 0 < eta s i1 i2 /\
   exists e : list Q,
     update_alpha_pair s i1 i2 =
       Ok (true,
           set_E (set_alpha (set_b s (Spec.new_b s i1 i2))
                    (Py.update (Py.update (alpha s) i1 (Spec.new_alpha1 s i1 i2))
                               i2 (Spec.new_alpha2 s i1 i2))) e) /\
     length e = m s /\
     forall i : nat, (i < m s)%nat ->
       nth i e 0 =
       Spec.error_entry
         (set_alpha (set_b s (Spec.new_b s i1 i2))
            (Py.update (Py.update (alpha s) i1 (Spec.new_alpha1 s i1 i2))
                       i2 (Spec.new_alpha2 s i1 i2))) i).
Proof.
  intros Hs H1 H2.
  destruct (Nat.eq_dec i1 i2) as [->|Hne].
  { left. split; [apply update_alpha_pair_same | auto]. }
  destruct (Qlt_le_dec 0 (eta s i1 i2)) as [Hpos|Hneg].
  - right. split; [exact Hne | split; [exact Hpos | ]].
    apply update_alpha_pair_commit; assumption.
  - left. split; [ | auto ].
    rewrite update_alpha_pair_run by assumption.
    apply Qle_bool_iff in Hneg. rewrite Hneg. reflexivity.
Qed.

Lemma is_label_cases (y : Q) : is_label y = true -> y == 1 \/ y == -1.
Proof.
  unfold is_label. rewrite orb_true_iff, !Qeq_bool_iff. auto.
Qed.

Lemma in_box_iff (c a : Q) : in_box c a = true <-> 0 <= a <= c.
Proof.
  unfold in_box. rewrite andb_true_iff, !Qle_bool_iff. tauto.
Qed.

(** The clipped pair stays in the box: the bounds [L] and [H] are exactly
    the ends of the segment cut out of [[0,C]^2] by the equality constraint. *)
Lemma step_in_box (c y1 y2 a1 a2 x : Q) :
  is_label y1 = true -> is_label y2 = true ->
  0 <= a1 <= c -> 0 <= a2 <= c ->
  let a2n := Spec.clip x (Spec.L c y1 y2 a1 a2) (Spec.H c y1 y2 a1 a2) in
  0 <= a2n <= c /\ 0 <= Spec.alpha1_new y1 y2 a1 a2 a2n <= c.
Proof.
  intros Hy1 Hy2 Ha1 Ha2.
  apply is_label_cases in Hy1, Hy2.
  unfold Spec.alpha1_new, Spec.clip, Spec.L, Spec.H.
  destruct (Qeq_dec y1 y2) as [Heq|Hne].
  - assert (Hp : y1 * y2 == 1).
    { destruct Hy1 as [H1|H1], Hy2 as [H2|H2]; try (exfalso; lra);
        rewrite H1, H2; lra. }
    cbv zeta.
    destruct (Q.max_spec 0 (a1 + a2 - c)) as [[? Hm]|[? Hm]];
    destruct (Q.min_spec c (a1 + a2)) as [[? Hn]|[? Hn]];
    repeat match goal with
           | |- context [Qlt_le_dec ?u ?v] => destruct (Qlt_le_dec u v)
           end;
    rewrite Hp; lra.
  - assert (Hp : y1 * y2 == -1).
    { destruct Hy1 as [H1|H1], Hy2 as [H2|H2];
        try (exfalso; apply Hne; lra); rewrite H1, H2; lra. }
    cbv zeta.
    destruct (Q.max_spec 0 (a2 - a1)) as [[? Hm]|[? Hm]];
    destruct (Q.min_spec c (c + a2 - a1)) as [[? Hn]|[? Hn]];
    repeat match goal with
           | |- context [Qlt_le_dec ?u ?v] => destruct (Qlt_le_dec u v)
           end;
    rewrite Hp; lra.
Qed.

Lemma forallb_update {A : Type} (p : A -> bool) (l : list A) (i : nat) (v : A) :
  forallb p l = true -> p v = true -> forallb p (Py.update l i v) = true.
Proof.
  revert i; induction l as [|h t IH]; intros [|i]; simpl; auto;
    rewrite !andb_true_iff; intros [Hh Ht] Hv; auto.
Qed.

Lemma forallb_nth {A : Type} (p : A -> bool) (l : list A) (i : nat) (d : A) :
  forallb p l = true -> (i < length l)%nat -> p (nth i l d) = true.
Proof.
  intros Hall Hi. rewrite forallb_forall in Hall. apply Hall, nth_In, Hi.
Qed.

(** One call keeps every multiplier in [[0, C]]. *)
Lemma update_alpha_pair_box (s s' : svm) (i1 i2 : nat) (r : bool) :
  shapes_ok s = true -> (i1 < m s)%nat -> (i2 < m s)%nat ->
  labels_ok (Y s) = true -> alpha_in_box s = true ->
  update_alpha_pair s i1 i2 = Ok (r, s') ->
  alpha_in_box s' = true.
Proof.
  intros Hs H1 H2 Hlab Hbox Hrun.
  pose proof (proj1 (shapes_ok_iff s) Hs) as (HX & HY & Ha & HE & HK & Hrows).
  destruct (update_alpha_pair_cases s i1 i2 Hs H1 H2)
    as [[Hfail _] | (Hne & Heta & e & Hok & _)].
  - rewrite Hfail in Hrun. inversion Hrun; subst. exact Hbox.
  - rewrite Hok in Hrun. inversion Hrun; subst. clear Hrun.
    unfold alpha_in_box in *. simpl.
    destruct (step_in_box (C (cfg s)) (Y_at s i1) (Y_at s i2)
                (alpha_at s i1) (alpha_at s i2)
                (alpha_at s i2 + Y_at s i2 * (E_at s i1 - E_at s i2) / eta s i1 i2))
      as [Hb2 Hb1].
    + apply forallb_nth; [exact Hlab | lia].
    + apply forallb_nth; [exact Hlab | lia].
    + apply in_box_iff. apply forallb_nth; [exact Hbox | lia].
    + apply in_box_iff. apply forallb_nth; [exact Hbox | lia].
    + apply forallb_update; [apply forallb_update; [exact Hbox | ] | ];
        apply in_box_iff; assumption.
Qed.

(** ** Loops over an index range *)

Lemma for_each_seq_invariant {S : Type} (P : nat -> S -> Prop)
  (body : S -> nat -> result S) (len : nat) :
  forall (start : nat) (s s' : S),
  (forall (t : S) (j : nat) (t' : S),
     (start <= j < start + len)%nat -> P j t -> body t j = Ok t' -> P (Datatypes.S j) t') ->
  P start s -> for_each body (seq start len) s = Ok s' -> P (start + len)%nat s'.
Proof.
  induction len as [|len IH]; simpl; intros start s s' Hbody HP Hrun.
  - inversion Hrun; subst. rewrite Nat.add_0_r. exact HP.
  - inv_bind Hrun. replace (start + Datatypes.S len)%nat with (Datatypes.S start + len)%nat by lia.
    apply (IH (Datatypes.S start) v s'); [ | | exact Hrun ].
    + intros t j t' Hj. apply Hbody. lia.
    + apply (Hbody s start v); [lia | exact HP | exact Hv].
Qed.

(** ** Writing one cell of a matrix *)

Lemma nth_update_row (K : list (list Q)) (i a : nat) (row : list Q) :
  (i < length K)%nat ->
  nth a (Py.update K i row) [] = if (a =? i)%nat then row else nth a K [].
Proof.
  intros Hi. destruct (Nat.eqb_spec a i) as [->|Hne].
  - apply nth_update_eq, Hi.
  - apply nth_update_ne. congruence.
Qed.

Lemma setitem2_spec (K K' : list (list Q)) (i j : nat) (v : Q) :
  Py.setitem2 K i j v = Ok K' ->
  (i < length K)%nat /\ (j < length (nth i K []))%nat /\
  length K' = length K /\
  (forall a : nat, length (nth a K' []) = length (nth a K [])) /\
  (forall a c : nat,
     entry K' a c = if (a =? i)%nat && (c =? j)%nat then v else entry K a c).
Proof.
  unfold Py.setitem2. intros Hrun.
  inv_bind Hrun. apply (getitem_Ok _ _ _ []) in Hv. destruct Hv as [Hi <-].
  inv_bind Hrun. apply setitem_inv in Hv. destruct Hv as [Hj ->].
  apply setitem_inv in Hrun. destruct Hrun as [_ ->].
  repeat split; auto.
  - apply update_length.
  - intros a. rewrite nth_update_row by exact Hi.
    destruct (Nat.eqb_spec a i) as [->|_]; [apply update_length | reflexivity].
  - intros a c. unfold entry. rewrite nth_update_row by exact Hi.
    destruct (Nat.eqb_spec a i) as [->|_]; simpl; [ | reflexivity ].
    destruct (Nat.eqb_spec c j) as [->|Hne].
    + apply nth_update_eq, Hj.
    + apply nth_update_ne. congruence.
Qed.

Lemma setitem2_total (K : list (list Q)) (i j : nat) (v : Q) :
  (i < length K)%nat -> (j < length (nth i K []))%nat ->
  exists K', Py.setitem2 K i j v = Ok K'.
Proof.
  intros Hi Hj. unfold Py.setitem2.
  rewrite (getitem_nth K i []) by exact Hi. simpl.
  rewrite setitem_Ok by exact Hj. simpl.
  rewrite setitem_Ok by exact Hi. eauto.
Qed.

Lemma setitem2_square (size : nat) (K K' : list (list Q)) (i j : nat) (v : Q) :
  square size K -> Py.setitem2 K i j v = Ok K' -> square size K'.
Proof.
  intros [HK Hrows] Hrun.
  apply setitem2_spec in Hrun. destruct Hrun as (_ & _ & Hlen & Hrow & _).
  split; [congruence | ]. intros a Ha. rewrite Hrow. auto.
Qed.

(** ** [computer_product_matrix]: the upper triangle is evaluated, the lower
    one mirrored *)

Section Gram.

Variable k : list Q -> list Q -> result Q.
Variable xs : list (list Q).
Variable size : nat.
Hypothesis xs_length : length xs = size.

Lemma gram_cell_step (i j : nat) (K K' : list (list Q)) :
  (i <= j < size)%nat ->
  gram_inv k xs size i j K -> gram_cell k xs i K j = Ok K' ->
  gram_inv k xs size i (S j) K'.
Proof.
  intros Hij [Hsq Hdone] Hrun. unfold gram_cell in Hrun.
  inv_bind Hrun. apply (getitem_Ok _ _ _ []) in Hv. destruct Hv as [_ <-].
  inv_bind Hrun. apply (getitem_Ok _ _ _ []) in Hv. destruct Hv as [_ <-].
  inv_bind Hrun. rename v into val, Hv into Hval.
  inv_bind Hrun. rename v into K1, Hv into HK1.
  inv_bind Hrun. rename v into w, Hv into Hw.
  pose proof (setitem2_square size _ _ _ _ _ Hsq HK1) as Hsq1.
  pose proof (setitem2_square size _ _ _ _ _ Hsq1 Hrun) as Hsq'.
  apply setitem2_spec in HK1. destruct HK1 as (_ & _ & _ & _ & HK1).
  apply setitem2_spec in Hrun. destruct Hrun as (_ & _ & _ & _ & HK').
  assert (Hwv : w = val).
  { unfold Py.getitem2 in Hw. inv_bind Hw.
    apply (getitem_Ok _ _ _ []) in Hv. destruct Hv as [_ <-].
    apply (getitem_Ok _ _ _ 0) in Hw. destruct Hw as [_ Hw].
    fold (entry K1 i j) in Hw. rewrite HK1, !Nat.eqb_refl in Hw.
    simpl in Hw. congruence. }
  subst w. split; [exact Hsq' | ].
  intros a c Hac Hc Hd.
  rewrite !HK', !HK1.
  assert (Hcase : (a = i /\ c = j) \/ upper_done i j a c)
    by (unfold upper_done in *; lia).
  destruct Hcase as [[-> ->] | Hold].
  - rewrite !Nat.eqb_refl. simpl.
    destruct (Nat.eqb_spec i j) as [->|Hne]; simpl.
    + rewrite Nat.eqb_refl. simpl. auto.
    + destruct (Nat.eqb_spec j i) as [->|_]; simpl; auto.
  - destruct (Hdone a c Hac Hc Hold) as [Hk Hsym].
    assert (H1 : (a =? j)%nat && (c =? i)%nat = false).
    { destruct (Nat.eqb_spec a j), (Nat.eqb_spec c i); simpl; try reflexivity.
      exfalso. unfold upper_done in Hold. lia. }
    assert (H2 : (a =? i)%nat && (c =? j)%nat = false).
    { destruct (Nat.eqb_spec a i), (Nat.eqb_spec c j); simpl; try reflexivity.
      exfalso. unfold upper_done in Hold. lia. }
    rewrite (andb_comm (c =? j)%nat), (andb_comm (c =? i)%nat), H1, H2.
    auto.
Qed.

Lemma gram_row_step (i : nat) (K K' : list (list Q)) :
  (i < size)%nat ->
  gram_inv k xs size i i K -> gram_row k xs size K i = Ok K' ->
  gram_inv k xs size (S i) (S i) K'.
Proof.
  intros Hi Hinv Hrun. unfold gram_row in Hrun.
  assert (Hend : gram_inv k xs size i (i + (size - i)) K').
  { apply (for_each_seq_invariant (gram_inv k xs size i)
             (gram_cell k xs i) (size - i) i K K'); [ | exact Hinv | exact Hrun ].
    intros t j t' Hj Ht Hstep. apply (gram_cell_step i j t t'); auto. lia. }
  destruct Hend as [Hsq Hdone]. split; [exact Hsq | ].
  intros a c Hac Hc Hd. apply Hdone; auto.
  unfold upper_done in *. lia.
Qed.

Lemma zeros2_square : square size (Py.zeros2 size size).
Proof.
  unfold square, Py.zeros2, Py.zeros. split; [apply repeat_length | ].
  intros a Ha. rewrite nth_repeat_lt by exact Ha. apply repeat_length.
Qed.

(** Whenever the construction returns, the matrix is square, symmetric,
    and holds on and above the diagonal the value computed for that pair. *)
Lemma gram_correct (K : list (list Q)) :
  gram k xs size = Ok K ->
  square size K /\
  (forall i j : nat, (i < size)%nat -> (j < size)%nat -> entry K i j = entry K j i) /\
  (forall i j : nat, (i <= j)%nat -> (j < size)%nat ->
     k (nth i xs []) (nth j xs []) = Ok (entry K i j)).
Proof.
  intros Hrun. unfold gram in Hrun.
  assert (Hend : gram_inv k xs size (0 + size) (0 + size) K).
  { apply (for_each_seq_invariant (fun i => gram_inv k xs size i i)
             (gram_row k xs size) size 0 (Py.zeros2 size size) K);
      [ | | exact Hrun ].
    - intros t i t' Hi Ht Hstep. apply (gram_row_step i t t'); auto. lia.
    - split; [apply zeros2_square | ].
      intros a c _ _ Hd. unfold upper_done in Hd. lia. }
  destruct Hend as [Hsq Hdone]. split; [exact Hsq | split].
  - intros i j Hi Hj. destruct (Nat.le_gt_cases i j) as [Hij|Hij].
    + symmetry. apply Hdone; auto. unfold upper_done. lia.
    + apply Hdone; auto; [lia | unfold upper_done; lia].
  - intros i j Hij Hj. apply Hdone; auto. unfold upper_done. lia.
Qed.

(** The construction returns whenever the pairwise function does on the
    rows. *)
Lemma gram_total :
  (forall i j : nat, (i < size)%nat -> (j < size)%nat ->
     exists v, k (nth i xs []) (nth j xs []) = Ok v) ->
  exists K, gram k xs size = Ok K.
Proof.
  intros Hk. unfold gram.
  destruct (for_each_total (square size) (gram_row k xs size) (seq 0 size))
    with (s := Py.zeros2 size size) as (K & HK & _);
    [ | apply zeros2_square | eauto ].
  intros K i Hi HsqK. apply in_seq in Hi. unfold gram_row.
  apply (for_each_total (square size) (gram_cell k xs i)); [ | exact HsqK ].
  intros K0 j Hj [HK0 Hrows]. apply in_seq in Hj. unfold gram_cell.
  rewrite (getitem_nth xs i []), (getitem_nth xs j []) by lia. simpl.
  destruct (Hk i j) as (v & ->); [lia | lia | ]. simpl.
  destruct (setitem2_total K0 i j v) as (K1 & HK1);
    [lia | rewrite Hrows; lia | ].
  rewrite HK1. simpl.
  pose proof (setitem2_square size _ _ _ _ _ (conj HK0 Hrows) HK1) as [HK1l HK1r].
  unfold Py.getitem2. rewrite (getitem_nth K1 i []) by lia. simpl.
  rewrite (getitem_nth _ j 0) by (rewrite HK1r; lia). simpl.
  destruct (setitem2_total K1 j i (nth j (nth i K1 []) 0)) as (K2 & HK2);
    [lia | rewrite HK1r; lia | ].
  exists K2. split; [exact HK2 | ].
  apply (setitem2_square size _ _ _ _ _ (conj HK1l HK1r) HK2).
Qed.

End Gram.

(** ** [kernel] *)

Lemma Qmult_comm_eq (x y : Q) : x * y = y * x.
Proof.
  unfold Qmult. f_equal; [apply Z.mul_comm | apply Pos.mul_comm].
Qed.

Lemma dotq_comm (u v : list Q) : Py.dotq u v = Py.dotq v u.
Proof.
  revert v; induction u as [|x u IH]; intros [|y v]; simpl; auto.
  rewrite IH, Qmult_comm_eq. reflexivity.
Qed.

Lemma dot_comm (u v : list Q) : Py.dot u v = Py.dot v u.
Proof.
  unfold Py.dot. rewrite Nat.eqb_sym, dotq_comm. reflexivity.
Qed.

Lemma sq_minus_comm (x y : Q) : (x - y) ^ 2 = (y - x) ^ 2.
Proof.
  destruct x as [xn xd], y as [yn yd].
  unfold Qpower, Qpower_positive, pow_pos. simpl.
  unfold Qminus, Qplus, Qopp, Qmult. simpl. f_equal.
  - ring.
  - rewrite (Pos.mul_comm yd xd). reflexivity.
Qed.

Lemma squares_zip_comm (u v : list Q) :
  map (fun t => t ^ 2) (map (fun p => fst p - snd p) (combine u v))
  = map (fun t => t ^ 2) (map (fun p => fst p - snd p) (combine v u)).
Proof.
  revert v; induction u as [|x u IH]; intros [|y v]; cbn [map combine fst snd]; auto.
  rewrite IH. f_equal. apply sq_minus_comm.
Qed.

(** The squared differences do not depend on the order of the operands,
    broadcasting included. *)
Lemma squares_sub_comm (u v : list Q) :
  (d <- Py.sub u v ;; Ok (map (fun t => t ^ 2) d))
  = (d <- Py.sub v u ;; Ok (map (fun t => t ^ 2) d)).
Proof.
  unfold Py.sub, Py.broadcast2. rewrite (Nat.eqb_sym (length v)).
  destruct (Nat.eqb_spec (length u) (length v)) as [Hl|Hl]; cbn [bind].
  - rewrite squares_zip_comm. reflexivity.
  - destruct u as [|x [|x' u]], v as [|y [|y' v]]; cbn [length] in Hl;
      try congruence; cbn [bind]; try reflexivity;
      rewrite !map_map; f_equal; apply map_ext; intros; apply sq_minus_comm.
Qed.

Section KernelFacts.

Context `{Exp}.

Lemma kernel_comm (name : string) (x1 x2 : list Q) :
  kernel name x1 x2 = kernel name x2 x1.
Proof.
  unfold kernel.
  destruct (String.eqb name "linear"); [apply dot_comm | ].
  destruct (String.eqb name "poly"); [rewrite dot_comm; reflexivity | ].
  destruct (String.eqb name "rbf"); [ | reflexivity ].
  pose proof (squares_sub_comm x1 x2) as Hsq.
  destruct (Py.sub x1 x2), (Py.sub x2 x1); simpl in *; congruence.
Qed.

Lemma kernel_total (name : string) (x1 x2 : list Q) :
  length x1 = length x2 -> exists v, kernel name x1 x2 = Ok v.
Proof.
  intros Hl. unfold kernel, Py.dot, Py.sub.
  rewrite broadcast2_same by exact Hl. rewrite Hl, Nat.eqb_refl. simpl.
  destruct (String.eqb name "linear"); [eauto | ].
  destruct (String.eqb name "poly"); [eauto | ].
  destruct (String.eqb name "rbf"); eauto.
Qed.

Lemma kernel_unknown (name : string) (x1 x2 : list Q) :
  name <> "linear"%string -> name <> "poly"%string -> name <> "rbf"%string ->
  kernel name x1 x2 = Ok 0.
Proof.
  intros Hl Hp Hr. unfold kernel.
  apply String.eqb_neq in Hl, Hp, Hr. rewrite Hl, Hp, Hr. reflexivity.
Qed.

(** ** [init_args] *)

Lemma shape_inv (a : list (list Q)) (r c : nat) :
  Py.shape a = Ok (r, c) ->
  r = length a /\ c = Py.ncols a /\ forall row, In row a -> length row = c.
Proof.
  unfold Py.shape.
  destruct (forallb (fun row => (length row =? Py.ncols a)%nat) a) eqn:Hall;
    intros Hs; [ | discriminate ].
  inversion Hs; subst. split; [reflexivity | split; [reflexivity | ]].
  intros row Hrow. rewrite forallb_forall in Hall.
  apply Nat.eqb_eq, Hall, Hrow.
Qed.

Lemma init_args_inv (c : config) (features : list (list Q)) (labels : list Q)
  (s : svm) :
  init_args c features labels = Ok s ->
  cfg s = c /\ m s = length features /\ X s = features /\ Y s = labels /\
  alpha s = Py.zeros (length features) /\ b s = 0 /\
  E s = map (fun y => 0 - y) labels /\ n s = Py.ncols features /\
  (forall row, In row features -> length row = n s) /\
  gram (kernel (_kernel c)) features (length features) = Ok (product_matrix s).
Proof.
  unfold init_args, computer_product_matrix. intros Hrun.
  inv_bind Hrun. destruct v as [r cc]. apply shape_inv in Hv.
  destruct Hv as (-> & -> & Hrows). simpl in Hrun.
  inv_bind Hrun. inv_bind Hv. inversion Hv; subst. inversion Hrun; subst.
  simpl. repeat split; auto.
Qed.

Lemma init_args_total (c : config) (features : list (list Q)) (labels : list Q)
  (d : nat) :
  (forall row, In row features -> length row = d) ->
  exists s, init_args c features labels = Ok s.
Proof.
  intros Hrows. unfold init_args, Py.shape.
  assert (Hall : forallb (fun row => (length row =? Py.ncols features)%nat) features
                 = true).
  { apply forallb_forall. intros row Hrow. apply Nat.eqb_eq.
    rewrite (Hrows row Hrow). unfold Py.ncols.
    destruct features as [|r0 rest]; [destruct Hrow | ].
    simpl. symmetry. apply Hrows. left. reflexivity. }
  rewrite Hall. simpl. unfold computer_product_matrix. simpl.
  destruct (gram_total (kernel (_kernel c)) features (length features) eq_refl)
    as (K & HK).
  { intros i j Hi Hj. apply kernel_total.
    rewrite !Hrows by (apply nth_In; assumption). reflexivity. }
  rewrite HK. simpl. eauto.
Qed.

End KernelFacts.

(** ** What one call of [update_alpha_pair] leaves alone *)

Lemma update_alpha_pair_frame (s s' : svm) (i1 i2 : nat) (r : bool) :
  shapes_ok s = true -> (i1 < m s)%nat -> (i2 < m s)%nat ->
  update_alpha_pair s i1 i2 = Ok (r, s') ->
  same_data s s' /\ shapes_ok s' = true.
Proof.
  intros Hs H1 H2 Hrun.
  destruct (update_alpha_pair_cases s i1 i2 Hs H1 H2)
    as [[Hfail _] | (Hne & Heta & e & Hok & Hlen & _)].
  - rewrite Hfail in Hrun. inversion Hrun; subst.
    split; [repeat split | exact Hs].
  - rewrite Hok in Hrun. inversion Hrun; subst. clear Hrun.
    split; [repeat split | ].
    apply shapes_ok_iff in Hs. destruct Hs as (HX & HY & Ha & HE & HK & Hrows).
    apply shapes_ok_iff. simpl. rewrite !update_length. repeat split; auto.
Qed.

Lemma update_alpha_pair_total (s : svm) (i1 i2 : nat) :
  shapes_ok s = true -> (i1 < m s)%nat -> (i2 < m s)%nat ->
  exists r s', update_alpha_pair s i1 i2 = Ok (r, s').
Proof.
  intros Hs H1 H2.
  destruct (update_alpha_pair_cases s i1 i2 Hs H1 H2)
    as [[Hfail _] | (_ & _ & e & Hok & _)]; eauto.
Qed.

(** ** [function_g] against the cached errors *)

Lemma function_g_run (s : svm) (i : nat) :
  shapes_ok s = true -> (i < m s)%nat ->
  function_g s i =
  Ok (b s + Py.sum (map (fun j => alpha_at s j * Y_at s j * K_at s i j) (seq 0 (m s)))).
Proof.
  intros Hs Hi.
  pose proof (proj1 (shapes_ok_iff s) Hs) as (HX & HY & Ha & HE & HK & Hrows).
  unfold function_g, Py.mul. rewrite broadcast2_same by congruence. simpl.
  rewrite (getitem_nth _ i []) by lia. simpl.
  unfold Py.dot. rewrite zip_length, Ha, Hrows, Nat.eqb_refl by (auto; congruence).
  simpl. do 2 f_equal.
  rewrite dotq_sum by (rewrite zip_length, Hrows; auto; congruence).
  rewrite zip_length, Ha by congruence.
  f_equal. apply map_ext_in. intros j Hj. apply in_seq in Hj.
  rewrite nth_zip by lia. reflexivity.
Qed.

(** On a symmetric matrix the row used by [function_g] and the column used
    by [create_E] give the same sum, so a consistent cache holds the value
    that [examine_example] recomputes. *)
Lemma fresh_error_cached (s : svm) (i : nat) :
  train_inv s -> (i < m s)%nat ->
  exists g : Q, function_g s i = Ok g /\ g - Y_at s i == E_at s i.
Proof.
  intros (Hs & Hsym & Hcache) Hi.
  rewrite function_g_run by assumption. eexists; split; [reflexivity | ].
  rewrite (Hcache i Hi). unfold Spec.error_entry.
  replace (map (fun j => alpha_at s j * Y_at s j * K_at s i j) (seq 0 (m s)))
    with (map (fun j => alpha_at s j * Y_at s j * K_at s j i) (seq 0 (m s))).
  - ring.
  - apply map_ext_in. intros j Hj. apply in_seq in Hj.
    rewrite (Hsym j i) by lia. reflexivity.
Qed.

(** ** Index selection *)

Lemma where_In (p : Q -> bool) (a : list Q) (i : nat) :
  In i (where_ p a) <-> (i < length a)%nat /\ p (nth i a 0) = true.
Proof.
  unfold where_. rewrite filter_In, in_seq. split; intros [H1 H2]; split; auto; lia.
Qed.

Lemma non_bound_In (s : svm) (i1 k : nat) :
  In k (non_bound s i1) <->
  (k < length (alpha s))%nat /\ k <> i1 /\
  eps < alpha_at s k /\ alpha_at s k < C (cfg s) - eps.
Proof.
  unfold non_bound. rewrite filter_In, where_In, negb_true_iff, Nat.eqb_neq.
  rewrite andb_true_iff, !Qltb_lt. unfold alpha_at. tauto.
Qed.

Lemma take_run (a : list Q) (idx : list nat) :
  (forall i, In i idx -> (i < length a)%nat) ->
  take a idx = Ok (map (fun i => nth i a 0) idx).
Proof.
  induction idx as [|i idx IH]; simpl; intros Hidx; [reflexivity | ].
  rewrite (getitem_nth a i 0) by auto. simpl.
  rewrite IH by auto. reflexivity.
Qed.

Lemma argmax_from_spec (l pre : list Q) (best : Q) (besti : nat) :
  (besti < length pre)%nat -> best = nth besti pre 0 ->
  (forall j, (j < length pre)%nat -> nth j pre 0 <= best) ->
  let k := argmax_from best besti (length pre) l in
  (k < length (pre ++ l))%nat /\
  forall j, (j < length (pre ++ l))%nat -> nth j (pre ++ l) 0 <= nth k (pre ++ l) 0.
Proof.
  revert pre best besti. induction l as [|x l IH]; intros pre best besti Hb Hbest Hmax.
  - simpl. rewrite app_nil_r. split; [exact Hb | ].
    intros j Hj. rewrite <- Hbest. auto.
  - cbn [argmax_from].
    assert (Hlen : length (pre ++ [x]) = S (length pre))
      by (rewrite length_app; simpl; lia).
    replace (pre ++ x :: l) with ((pre ++ [x]) ++ l)
      by (rewrite <- app_assoc; reflexivity).
    destruct (Py.Qltb best x) eqn:Hlt.
    + apply Qltb_lt in Hlt. rewrite <- Hlen. apply IH.
      * rewrite Hlen. lia.
      * rewrite app_nth2, Nat.sub_diag by lia. reflexivity.
      * intros j Hj. rewrite Hlen in Hj.
        destruct (Nat.eq_dec j (length pre)) as [->|Hne].
        -- rewrite app_nth2, Nat.sub_diag by lia. simpl. lra.
        -- rewrite app_nth1 by lia.
           assert (Hj' : (j < length pre)%nat) by lia.
           specialize (Hmax j Hj'). lra.
    + apply Qltb_ge in Hlt. rewrite <- Hlen. apply IH.
      * rewrite Hlen. lia.
      * rewrite app_nth1 by lia. exact Hbest.
      * intros j Hj. rewrite Hlen in Hj.
        destruct (Nat.eq_dec j (length pre)) as [->|Hne].
        -- rewrite app_nth2, Nat.sub_diag by lia. simpl. exact Hlt.
        -- rewrite app_nth1 by lia. apply Hmax. lia.
Qed.

Lemma argmax_spec (l : list Q) :
  l <> [] ->
  exists k : nat, argmax l = Ok k /\ (k < length l)%nat /\
    forall j, (j < length l)%nat -> nth j l 0 <= nth k l 0.
Proof.
  destruct l as [|x l]; [congruence | intros _].
  simpl argmax. eexists; split; [reflexivity | ].
  apply (argmax_from_spec l [x] x 0%nat); simpl; auto.
  intros j Hj. assert (j = 0%nat) as -> by lia. lra.
Qed.

(** ** [predict], [decision_function] and [score] *)

Section Inference.

Context `{Exp}.

(** The accumulation loop shared, as written out three times in the
    source, by [predict] and [decision_function]. *)
Lemma decision_loop_inv (s : svm) (x : list Q) (len : nat) :
  forall (start : nat) (r0 r : Q),
  for_each (fun r i =>
      a <- Py.getitem (alpha s) i ;;
      y <- Py.getitem (Y s) i ;;
      xi <- Py.getitem (X s) i ;;
      k <- kernel (_kernel (cfg s)) x xi ;;
      Ok (r + a * y * k)) (seq start len) r0 = Ok r ->
  exists kv : list Q,
    length kv = len /\
    (forall j, (j < len)%nat ->
       kernel (_kernel (cfg s)) x (nth (start + j) (X s) []) = Ok (nth j kv 0)) /\
    r == r0 + Py.sum (map (fun j => alpha_at s (start + j) * Y_at s (start + j)
                                    * nth j kv 0) (seq 0 len)).
Proof.
  induction len as [|len IH]; intros start r0 r Hrun.
  - simpl in Hrun. inversion Hrun; subst. exists []. simpl.
    split; [reflexivity | split; [intros; lia | ring]].
  - cbn [seq for_each] in Hrun. inv_bind Hrun. rename v into r1, Hv into Hstep.
    inv_bind Hstep. apply (getitem_Ok _ _ _ 0) in Hv. destruct Hv as [_ <-].
    inv_bind Hstep. apply (getitem_Ok _ _ _ 0) in Hv. destruct Hv as [_ <-].
    inv_bind Hstep. apply (getitem_Ok _ _ _ []) in Hv. destruct Hv as [_ <-].
    inv_bind Hstep. rename v into k0, Hv into Hk0. inversion Hstep; subst r1.
    destruct (IH _ _ _ Hrun) as (kv & Hlen & Hkv & Hr).
    exists (k0 :: kv). split; [simpl; congruence | split].
    + intros [|j] Hj; simpl.
      * rewrite Nat.add_0_r. exact Hk0.
      * rewrite <- Nat.add_succ_comm. apply Hkv. lia.
    + rewrite Hr. cbn [seq map Py.sum nth]. rewrite <- seq_shift, map_map.
      rewrite Nat.add_0_r. fold (alpha_at s start) (Y_at s start).
      replace (map (fun j => alpha_at s (start + S j) * Y_at s (start + S j)
                             * nth j kv 0) (seq 0 len))
        with (map (fun j => alpha_at s (S start + j) * Y_at s (S start + j)
                            * nth j kv 0) (seq 0 len)).
      * ring.
      * apply map_ext. intros j. rewrite <- Nat.add_succ_comm. reflexivity.
Qed.

Lemma decision_loop_returns (s : svm) (x : list Q) (len : nat) :
  shapes_ok s = true ->
  (forall j, (j < m s)%nat ->
     exists v, kernel (_kernel (cfg s)) x (nth j (X s) []) = Ok v) ->
  forall (start : nat) (r0 : Q), (start + len <= m s)%nat ->
  exists r : Q,
    for_each (fun r i =>
      a <- Py.getitem (alpha s) i ;;
      y <- Py.getitem (Y s) i ;;
      xi <- Py.getitem (X s) i ;;
      k <- kernel (_kernel (cfg s)) x xi ;;
      Ok (r + a * y * k)) (seq start len) r0 = Ok r.
Proof.
  intros Hs Hker.
  pose proof (proj1 (shapes_ok_iff s) Hs) as (HX & HY & Ha & HE & HK & _).
  induction len as [|len IH]; intros start r0 Hle; cbn [seq for_each]; [eauto | ].
  rewrite (getitem_nth (alpha s) start 0), (getitem_nth (Y s) start 0),
    (getitem_nth (X s) start []) by lia.
  cbn [bind].
  destruct (Hker start) as (k0 & ->); [lia | ].
  cbn [bind]. apply IH. lia.
Qed.

Lemma decision_loop_total (s : svm) (x : list Q) (len : nat) :
  shapes_ok s = true -> rows_ok s -> length x = n s ->
  forall (start : nat) (r0 : Q), (start + len <= m s)%nat ->
  exists r : Q,
    for_each (fun r i =>
      a <- Py.getitem (alpha s) i ;;
      y <- Py.getitem (Y s) i ;;
      xi <- Py.getitem (X s) i ;;
      k <- kernel (_kernel (cfg s)) x xi ;;
      Ok (r + a * y * k)) (seq start len) r0 = Ok r.
Proof.
  intros Hs Hrows Hx. apply decision_loop_returns; [exact Hs | ].
  pose proof (proj1 (shapes_ok_iff s) Hs) as (HX & _).
  intros j Hj. apply kernel_total.
  rewrite Hx. symmetry. apply Hrows, nth_In. lia.
Qed.

Lemma predict_decision (s : svm) (x : list Q) (r : Q) :
  decision_function s (Arr1 x) = Ok [r] ->
  predict s x = Ok (if Py.Qltb 0 r then 1%Z else (-1)%Z).
Proof.
  unfold decision_function, predict. intros Hrun.
  inv_bind Hrun. inversion Hrun; subst. rewrite Hv. reflexivity.
Qed.

Lemma predict_total (s : svm) (x : list Q) :
  shapes_ok s = true -> rows_ok s -> length x = n s ->
  exists p : Z, predict s x = Ok p.
Proof.
  intros Hs Hrows Hx. unfold predict.
  destruct (decision_loop_total s x (m s) Hs Hrows Hx 0%nat (b s)) as (r & ->);
    [lia | ]. cbn [bind]. eauto.
Qed.

(** The counting loop of [score]. *)
Lemma score_loop (s : svm) (X_test : list (list Q)) (y_test : list Q) (len : nat) :
  (forall i, (i < length X_test)%nat -> exists p, predict s (nth i X_test []) = Ok p) ->
  (length X_test <= length y_test)%nat ->
  forall (start c0 : nat), (start + len <= length X_test)%nat ->
  for_each (fun (right_count : nat) i =>
       x <- Py.getitem X_test i ;;
       res <- predict s x ;;
       y <- Py.getitem y_test i ;;
       Ok (if Qeq_bool (inject_Z res) y then S right_count else right_count))
     (seq start len) c0
  = Ok (Nat.add c0 (length (filter (fun i =>
          match predict s (nth i X_test []) with
          | Ok p => Qeq_bool (inject_Z p) (nth i y_test 0)
          | Raise _ => false
          end) (seq start len)))).
Proof.
  intros Hpred Hlen.
  induction len as [|len IH]; intros start c0 Hle; cbn [seq for_each filter].
  - rewrite Nat.add_0_r. reflexivity.
  - rewrite (getitem_nth X_test start []) by lia. cbn [bind].
    destruct (Hpred start) as (p & Hp); [lia | ]. rewrite Hp. cbn [bind].
    rewrite (getitem_nth y_test start 0) by lia. cbn [bind].
    rewrite IH by lia.
    destruct (Qeq_bool (inject_Z p) (nth start y_test 0)); cbn [length];
      f_equal; lia.
Qed.

Lemma score_run (s : svm) (X_test : list (list Q)) (y_test : list Q) :
  shapes_ok s = true -> rows_ok s ->
  eval_ok (n s) (Some X_test) (Some y_test) ->
  score s X_test y_test = Ok (accuracy s X_test y_test).
Proof.
  intros Hs Hrows (Hne & Hlen & Hdim). unfold score.
  rewrite (score_loop s X_test y_test (length X_test)); auto.
  - cbn [bind]. destruct X_test as [|x0 rest] eqn:Hx; [congruence | ].
    rewrite <- Hx. unfold accuracy, matches. rewrite Nat.add_0_l.
    rewrite Hx at 1. reflexivity.
  - intros i Hi. apply predict_total; auto. apply Hdim, nth_In, Hi.
Qed.

Lemma score_empty (s : svm) (y_test : list Q) :
  score s [] y_test = Raise ZeroDivisionError.
Proof. reflexivity. Qed.

End Inference.

(** ** The ghost log *)

Lemma examined_app (l1 l2 : list event) :
  examined (l1 ++ l2) = examined l1 ++ examined l2.
Proof.
  induction l1 as [|[i s|i j|s] l1 IH]; simpl; congruence.
Qed.

Lemma pass_states_app (l1 l2 : list event) :
  pass_states (l1 ++ l2) = pass_states l1 ++ pass_states l2.
Proof.
  induction l1 as [|[i s|i j|s] l1 IH]; simpl; congruence.
Qed.

Lemma entered_in_app (P : svm -> Prop) (l1 l2 : list event) :
  entered_in P l1 -> entered_in P l2 -> entered_in P (l1 ++ l2).
Proof.
  intros H1 H2 i s Hin. apply in_app_or in Hin. destruct Hin; auto.
Qed.

Lemma entered_in_only_attempts (P : svm -> Prop) (i1 : nat) (l : list event) :
  only_attempts i1 l -> entered_in P l.
Proof.
  intros Hall i s Hin. unfold only_attempts in Hall. rewrite Forall_forall in Hall.
  destruct (Hall _ Hin) as (j & Hj). discriminate.
Qed.

Lemma passes_of_no_end (l1 l2 : list event) :
  forall cur : list nat,
  pass_states l1 = [] ->
  passes_of cur (l1 ++ l2) = passes_of (cur ++ examined l1) l2.
Proof.
  induction l1 as [|[i s|i j|s] l1 IH]; simpl; intros cur Hno.
  - rewrite app_nil_r. reflexivity.
  - rewrite IH by exact Hno. rewrite <- app_assoc. reflexivity.
  - apply IH, Hno.
  - discriminate.
Qed.

Lemma passes_of_closed (l l2 : list event) (s : svm) :
  forall cur : list nat,
  passes_of cur ((l ++ [EndPass s]) ++ l2)
  = passes_of cur (l ++ [EndPass s]) ++ passes_of [] l2.
Proof.
  induction l as [|[i t|i j|t] l IH]; simpl; intros cur; auto.
  f_equal. apply IH.
Qed.

(** ** Training: what every call preserves *)

Lemma same_data_refl (s : svm) : same_data s s.
Proof. repeat split. Qed.

Lemma same_data_trans (s1 s2 s3 : svm) :
  same_data s1 s2 -> same_data s2 s3 -> same_data s1 s3.
Proof.
  unfold same_data. intros (?&?&?&?&?&?) (?&?&?&?&?&?). repeat split; congruence.
Qed.

Lemma tier1_select (s : svm) (i1 : nat) (E1 : Q) (js : list nat) :
  shapes_ok s = true -> js <> [] ->
  (forall j, In j js -> In j (non_bound s i1)) ->
  exists k j2 : nat,
    take (E s) js = Ok (map (fun i => nth i (E s) 0) js) /\
    argmax (map (fun e => Qabs (e - E1)) (map (fun i => nth i (E s) 0) js)) = Ok k /\
    Py.getitem js k = Ok j2 /\ In j2 js /\
    forall j, In j js -> Qabs (E_at s j - E1) <= Qabs (E_at s j2 - E1).
Proof.
  intros Hs Hne Hsub.
  pose proof (proj1 (shapes_ok_iff s) Hs) as (HX & HY & Ha & HE & HK & Hrows).
  destruct (argmax_spec (map (fun e => Qabs (e - E1)) (map (fun i => nth i (E s) 0) js)))
    as (k & Hk & Hlt & Hmax).
  { destruct js; [congruence | discriminate]. }
  rewrite !length_map in Hlt, Hmax.
  exists k, (nth k js 0%nat). split; [ | split; [exact Hk | split; [ | split]]].
  - apply take_run. intros i Hi. apply Hsub, non_bound_In in Hi. lia.
  - apply getitem_nth. exact Hlt.
  - apply nth_In. exact Hlt.
  - intros j Hj. destruct (In_nth _ _ 0%nat Hj) as (p & Hp & <-).
    specialize (Hmax p Hp). rewrite !map_map in Hmax.
    rewrite (nth_map_lt _ js p 0 0%nat) in Hmax by exact Hp.
    rewrite (nth_map_lt _ js k 0 0%nat) in Hmax by exact Hlt.
    exact Hmax.
Qed.

Lemma only_attempts_examined (i1 : nat) (l : list event) :
  only_attempts i1 l -> examined l = [] /\ pass_states l = [].
Proof.
  induction 1 as [|e l [j ->] _ [IH1 IH2]]; simpl; auto.
Qed.

Section Training.

Context {G : Type} `{RandomSource G} `{Exp}.
Variable P : svm -> Prop.
Hypothesis P_shapes : forall s, P s -> shapes_ok s = true.
Hypothesis P_update :
  forall s i1 i2 r s', P s -> (i1 < m s)%nat -> (i2 < m s)%nat ->
    update_alpha_pair s i1 i2 = Ok (r, s') -> P s'.

Lemma attempt_run (w : world G) (i1 j2 : nat) :
  P (model w) -> (i1 < m (model w))%nat -> (j2 < m (model w))%nat ->
  exists (r : bool) (w' : world G),
    attempt w i1 j2 = Ok (r, w') /\
    update_alpha_pair (model w) i1 j2 = Ok (r, model w') /\
    P (model w') /\ same_data (model w) (model w') /\
    calls w' = calls w ++ [Attempt i1 j2] /\ gen w' = gen w.
Proof.
  intros HP H1 H2.
  destruct (update_alpha_pair_total (model w) i1 j2) as (r & s' & Hrun); auto.
  destruct (update_alpha_pair_frame _ _ _ _ _ (P_shapes _ HP) H1 H2 Hrun) as [Hsame _].
  exists r, (set_model (log w (Attempt i1 j2)) s').
  unfold attempt. rewrite Hrun. simpl. repeat split; eauto; apply Hsame.
Qed.

Lemma scan_run (i1 : nat) (js : list nat) :
  forall w : world G,
  P (model w) -> (i1 < m (model w))%nat ->
  (forall j, In j js -> (j < m (model w))%nat) ->
  exists (r : bool) (w' : world G),
    scan i1 js w = Ok (r, w') /\
    P (model w') /\ same_data (model w) (model w') /\
    exists tail, calls w' = calls w ++ tail /\ only_attempts i1 tail.
Proof.
  induction js as [|j2 js IH]; intros w HP H1 Hjs; simpl.
  - exists false, w. split; [reflexivity | split; [exact HP | split]].
    + apply same_data_refl.
    + exists []. rewrite app_nil_r. split; [reflexivity | constructor].
  - destruct (Nat.eqb_spec j2 i1) as [_|_].
    + apply IH; auto. intros j Hj. apply Hjs. right. exact Hj.
    + assert (Hj2 : (j2 < m (model w))%nat) by (apply Hjs; left; reflexivity).
      destruct (attempt_run w i1 j2) as (r & w1 & Hrun & _ & HP1 & Hsame & Hcalls & _);
        auto.
      rewrite Hrun. simpl. destruct r.
      * exists true, w1. split; [reflexivity | split; [exact HP1 | split; [exact Hsame | ]]].
        exists [Attempt i1 j2]. split; [exact Hcalls | ].
        constructor; [eauto | constructor].
      * assert (Hm : m (model w1) = m (model w)) by apply Hsame.
        assert (H1' : (i1 < m (model w1))%nat) by (rewrite Hm; exact H1).
        assert (Hjs' : forall j, In j js -> (j < m (model w1))%nat).
        { intros j Hj. rewrite Hm. apply Hjs. right. exact Hj. }
        destruct (IH w1 HP1 H1' Hjs')
          as (r & w' & Hscan & HP' & Hsame' & tail & Htail & Hatt).
        exists r, w'. split; [exact Hscan | split; [exact HP' | split]].
        -- eapply same_data_trans; eauto.
        -- exists (Attempt i1 j2 :: tail). split.
           ++ rewrite Htail, Hcalls, <- app_assoc. reflexivity.
           ++ constructor; [eauto | exact Hatt].
Qed.

Lemma examine_example_run (w : world G) (i1 : nat) :
  P (model w) -> (i1 < m (model w))%nat ->
  exists (r : bool) (w' : world G),
    examine_example w i1 = Ok (r, w') /\
    P (model w') /\ same_data (model w) (model w') /\
    exists tail,
      calls w' = calls w ++ Examine i1 (model w) :: tail /\ only_attempts i1 tail.
Proof.
  intros HP H1.
  pose proof (P_shapes _ HP) as Hs.
  pose proof (proj1 (shapes_ok_iff _) Hs) as (HX & HY & Ha & HE & HK & Hrows).
  unfold examine_example.
  set (wl := log w (Examine i1 (model w))).
  assert (Hwl : calls wl = calls w ++ [Examine i1 (model w)]) by reflexivity.
  change (model wl) with (model w).
  rewrite function_g_run by assumption. cbn [bind].
  rewrite (getitem_nth (Y (model w)) i1 0), (getitem_nth (alpha (model w)) i1 0) by lia.
  cbn [bind].
  change (filter (fun k : nat => negb (k =? i1)%nat)
            (where_ (fun a : Q => Py.Qltb eps a && Py.Qltb a (C (cfg (model w)) - eps))
                    (alpha (model w))))
    with (non_bound (model w) i1).
  match goal with |- context [kkt_violated ?c ?a ?r] => destruct (kkt_violated c a r) end.
  2: { exists false, wl. split; [reflexivity | split; [exact HP | split]].
       - apply same_data_refl.
       - exists []. split; [exact Hwl | constructor]. }
  (* the fallback scan, from any world reached by the first tier *)
  assert (Hscan : forall (w1 : world G) (pre : list event),
    P (model w1) -> same_data (model w) (model w1) ->
    calls w1 = calls w ++ Examine i1 (model w) :: pre -> only_attempts i1 pre ->
    exists (r : bool) (w' : world G),
      scan i1 (fst (np_random_shuffle (gen w1) (seq 0 (m (model w1)))))
           (set_gen w1 (snd (np_random_shuffle (gen w1) (seq 0 (m (model w1))))))
      = Ok (r, w') /\
      P (model w') /\ same_data (model w) (model w') /\
      exists tail,
        calls w' = calls w ++ Examine i1 (model w) :: tail /\ only_attempts i1 tail).
  { intros w1 pre HP1 Hsame1 Hcalls1 Hpre.
    assert (Hm : m (model w1) = m (model w)) by apply Hsame1.
    destruct (scan_run i1 (fst (np_random_shuffle (gen w1) (seq 0 (m (model w1)))))
                (set_gen w1 (snd (np_random_shuffle (gen w1) (seq 0 (m (model w1)))))))
      as (r & w' & Hrun & HP' & Hsame' & tail & Htail & Hatt).
    - exact HP1.
    - simpl. rewrite Hm. exact H1.
    - intros j Hj. simpl.
      apply (Permutation_in j (Permutation_sym (np_random_shuffle_perm _ _))) in Hj.
      apply in_seq in Hj. lia.
    - exists r, w'. split; [exact Hrun | split; [exact HP' | split]].
      + eapply same_data_trans; eauto.
      + exists (pre ++ tail). split.
        * rewrite Htail. simpl. rewrite Hcalls1, <- app_assoc. reflexivity.
        * apply Forall_app. split; assumption. }
  destruct (non_bound (model w) i1) as [|j0 js] eqn:Hjs.
  - cbn [bind fst snd].
    apply (Hscan wl []); auto; [apply same_data_refl | constructor].
  - destruct (tier1_select (model w) i1
                (b (model w)
                 + Py.sum (map (fun j => alpha_at (model w) j * Y_at (model w) j
                                         * K_at (model w) i1 j)
                               (seq 0 (m (model w))))
                 - nth i1 (Y (model w)) 0)
                (j0 :: js) Hs)
      as (k & j2 & Htake & Harg & Hget & Hin & _).
    { discriminate. }
    { intros j Hj. rewrite Hjs. exact Hj. }
    rewrite Htake. cbn [bind]. rewrite Harg. cbn [bind]. rewrite Hget. cbn [bind].
    assert (Hj2 : (j2 < m (model w))%nat).
    { rewrite <- Hjs in Hin. apply non_bound_In in Hin. lia. }
    destruct (attempt_run wl i1 j2) as (r & w1 & Hrun & _ & HP1 & Hsame1 & Hcalls1 & _);
      auto.
    rewrite Hrun. cbn [bind fst snd]. destruct r.
    + exists true, w1. split; [reflexivity | split; [exact HP1 | split; [exact Hsame1 | ]]].
      exists [Attempt i1 j2]. split.
      * rewrite Hcalls1, Hwl, <- app_assoc. reflexivity.
      * constructor; [eauto | constructor].
    + apply (Hscan w1 [Attempt i1 j2]); auto.
      * rewrite Hcalls1, Hwl, <- app_assoc. reflexivity.
      * constructor; [eauto | constructor].
Qed.

(** The inner loop of [fit] over the indices [start .. start+len-1]. *)
Lemma pass_loop_run (len : nat) :
  forall (start : nat) (w : world G),
  P (model w) -> (start + len <= m (model w))%nat ->
  exists w' : world G,
    for_each (fun w i => r <- examine_example w i ;; Ok (snd r)) (seq start len) w
    = Ok w' /\
    P (model w') /\ same_data (model w) (model w') /\
    exists seg,
      calls w' = calls w ++ seg /\ examined seg = seq start len /\
      pass_states seg = [] /\ entered_in P seg.
Proof.
  induction len as [|len IH]; intros start w HP Hle; cbn [seq for_each].
  - exists w. split; [reflexivity | split; [exact HP | split]].
    + apply same_data_refl.
    + exists []. rewrite app_nil_r.
      split; [reflexivity | split; [reflexivity | split; [reflexivity | ]]].
      intros i s [].
  - destruct (examine_example_run w start) as (r & w1 & Hrun & HP1 & Hsame1 & tail & Hcalls1 & Hatt);
      [exact HP | lia | ].
    rewrite Hrun. cbn [bind snd].
    assert (Hm : m (model w1) = m (model w)) by apply Hsame1.
    destruct (IH (S start) w1 HP1) as (w' & Hloop & HP' & Hsame' & seg & Hcalls' & Hex & Hps & Hent);
      [lia | ].
    exists w'. split; [exact Hloop | split; [exact HP' | split]].
    + eapply same_data_trans; eauto.
    + destruct (only_attempts_examined _ _ Hatt) as [Hex0 Hps0].
      exists ((Examine start (model w) :: tail) ++ seg). split; [ | split; [ | split]].
      * rewrite Hcalls', Hcalls1, <- app_assoc. reflexivity.
      * rewrite examined_app. simpl. rewrite Hex0, Hex. reflexivity.
      * rewrite pass_states_app. simpl. rewrite Hps0, Hps. reflexivity.
      * apply entered_in_app; [ | exact Hent ].
        intros i s [Heq | Hin].
        -- inversion Heq; subst. split; [exact HP | lia].
        -- apply (entered_in_only_attempts P start tail Hatt i s Hin).
Qed.

Variables (X_test : option (list (list Q))) (y_test : option (list Q)).

Lemma trace_of_app (l1 l2 : list svm) :
  trace_of X_test y_test (l1 ++ l2)
  = trace_of X_test y_test l1 ++ trace_of X_test y_test l2.
Proof.
  unfold trace_of. destruct X_test, y_test; try reflexivity. apply map_app.
Qed.

(** One pass: the inner loop always returns; only [score] can raise. *)
Lemma fit_pass_step (w : world G) (accs : list Q) (passes : nat) :
  P (model w) ->
  exists (w' : world G),
    fit_pass X_test y_test (w, accs) passes
    = match X_test, y_test with
      | Some xt, Some yt =>
          current_accuracy <- score (model w') xt yt ;;
          Ok (w', accs ++ [current_accuracy])
      | _, _ => Ok (w', accs)
      end /\
    P (model w') /\ same_data (model w) (model w') /\
    exists seg,
      calls w' = calls w ++ seg ++ [EndPass (model w')] /\
      examined seg = seq 0 (m (model w)) /\
      pass_states seg = [] /\ entered_in P seg.
Proof.
  intros HP. unfold fit_pass. cbn [fst snd].
  destruct (pass_loop_run (m (model w)) 0 w HP)
    as (w1 & Hloop & HP1 & Hsame1 & seg & Hcalls1 & Hex & Hps & Hent); [lia | ].
  rewrite Hloop. cbn [bind].
  exists (log w1 (EndPass (model w1))).
  split; [reflexivity | split; [exact HP1 | split; [exact Hsame1 | ]]].
  exists seg. simpl. rewrite Hcalls1, <- app_assoc. auto.
Qed.

Lemma fit_pass_run (w : world G) (accs : list Q) (passes : nat) :
  P (model w) -> rows_ok (model w) -> eval_ok (n (model w)) X_test y_test ->
  exists (w' : world G),
    fit_pass X_test y_test (w, accs) passes
    = Ok (w', accs ++ trace_of X_test y_test [model w']) /\
    P (model w') /\ same_data (model w) (model w') /\
    exists seg,
      calls w' = calls w ++ seg ++ [EndPass (model w')] /\
      examined seg = seq 0 (m (model w)) /\
      pass_states seg = [] /\ entered_in P seg.
Proof.
  intros HP Hrows Heval.
  destruct (fit_pass_step w accs passes HP) as (w' & Hpass & HP' & Hsame & Hlog).
  exists w'. split; [ | auto ].
  rewrite Hpass. unfold trace_of.
  destruct X_test as [xt|], y_test as [yt|]; rewrite ?app_nil_r; try reflexivity.
  destruct Hsame as (_ & _ & Hn & HX & _).
  rewrite score_run; [reflexivity | apply P_shapes; exact HP' | | ].
  - intros row Hrow. rewrite Hn. apply Hrows. rewrite <- HX. exact Hrow.
  - rewrite Hn. exact Heval.
Qed.

(** Whenever the outer loop returns, the invariant held at every call. *)
Lemma fit_loop_inv (ps : list nat) :
  forall (w : world G) (accs : list Q) (st' : world G * list Q),
  P (model w) ->
  for_each (fit_pass X_test y_test) ps (w, accs) = Ok st' ->
  P (model (fst st')) /\ same_data (model w) (model (fst st')) /\
  exists ext, calls (fst st') = calls w ++ ext /\ entered_in P ext.
Proof.
  induction ps as [|p ps IH]; intros w accs st' HP Hrun; cbn [for_each] in Hrun.
  - inversion Hrun; subst. simpl.
    split; [exact HP | split; [apply same_data_refl | ]].
    exists []. rewrite app_nil_r. split; [reflexivity | intros i s []].
  - inv_bind Hrun. destruct v as [w1 accs1].
    destruct (fit_pass_step w accs p HP)
      as (w1' & Hpass & HP1 & Hsame1 & seg & Hcalls1 & _ & _ & Hent).
    assert (Hw1 : w1 = w1').
    { rewrite Hpass in Hv. destruct X_test as [xt|], y_test as [yt|];
        try (inversion Hv; reflexivity).
      inv_bind Hv. inversion Hv. reflexivity. }
    subst w1'.
    destruct (IH w1 accs1 st' HP1 Hrun) as (HP' & Hsame' & ext & Hcalls' & Hent').
    split; [exact HP' | split; [eapply same_data_trans; eauto | ]].
    exists ((seg ++ [EndPass (model w1)]) ++ ext). split.
    + rewrite Hcalls', Hcalls1, <- !app_assoc. reflexivity.
    + apply entered_in_app; [ | exact Hent' ].
      apply entered_in_app; [exact Hent | ].
      intros i s [Heq | []]. discriminate.
Qed.

Lemma fit_inv (c : config) (features : list (list Q)) (labels : list Q) (g : G)
  (accs : list Q) (w : world G) :
  (forall s0, init_args c features labels = Ok s0 -> P s0) ->
  fit c features labels X_test y_test g = Ok (accs, w) ->
  P (model w) /\ entered_in P (calls w) /\
  exists s0, init_args c features labels = Ok s0 /\ same_data s0 (model w).
Proof.
  intros Hinit Hrun. unfold fit in Hrun.
  inv_bind Hrun. rename v into s0, Hv into Hs0.
  inv_bind Hrun. rename v into st, Hv into Hloop.
  destruct (max_iter c); [discriminate | ]. inversion Hrun; subst. clear Hrun.
  destruct (fit_loop_inv _ {| model := s0; gen := g; calls := [] |} [] st
              (Hinit s0 Hs0) Hloop) as (HP & Hsame & ext & Hcalls & Hent).
  simpl in Hcalls. subst ext. eauto.
Qed.

Lemma last_cons {A : Type} (l : list A) (a d : A) : last (a :: l) d = last l a.
Proof.
  revert a d; induction l as [|x l IH]; intros a d; [reflexivity | ].
  change (last (a :: x :: l) d) with (last (x :: l) d).
  rewrite !(IH x). reflexivity.
Qed.

(** The outer loop of [fit], for any list of pass numbers. *)
Lemma fit_loop_run (ps : list nat) :
  forall (w : world G) (accs : list Q),
  P (model w) -> rows_ok (model w) -> eval_ok (n (model w)) X_test y_test ->
  exists (w' : world G) (ext : list event),
    for_each (fit_pass X_test y_test) ps (w, accs)
    = Ok (w', accs ++ trace_of X_test y_test (pass_states ext)) /\
    P (model w') /\ same_data (model w) (model w') /\
    calls w' = calls w ++ ext /\
    passes_of [] ext
    = map (fun s => (seq 0 (m (model w)), s)) (pass_states ext) /\
    length (pass_states ext) = length ps /\
    entered_in P ext /\
    last (pass_states ext) (model w) = model w'.
Proof.
  induction ps as [|p ps IH]; intros w accs HP Hrows Heval; cbn [for_each].
  - exists w, []. simpl. rewrite !app_nil_r.
    assert (Ht : trace_of X_test y_test [] = []).
    { unfold trace_of. destruct X_test, y_test; reflexivity. }
    rewrite Ht, app_nil_r.
    split; [reflexivity | split; [exact HP | split; [apply same_data_refl | ]]].
    split; [reflexivity | split; [reflexivity | split; [reflexivity | ]]].
    split; [intros i s [] | reflexivity].
  - destruct (fit_pass_run w accs p HP Hrows Heval)
      as (w1 & Hpass & HP1 & Hsame1 & seg & Hcalls1 & Hex & Hps & Hent).
    rewrite Hpass. cbn [bind].
    pose proof Hsame1 as (_ & Hm & Hn & HX & _).
    assert (Hrows1 : rows_ok (model w1)).
    { intros row Hrow. rewrite Hn. apply Hrows. rewrite <- HX. exact Hrow. }
    assert (Heval1 : eval_ok (n (model w1)) X_test y_test) by (rewrite Hn; exact Heval).
    destruct (IH w1 (accs ++ trace_of X_test y_test [model w1]) HP1 Hrows1 Heval1)
      as (w' & ext & Hloop & HP' & Hsame' & Hcalls' & Hpo & Hlen & Hent' & Hlast).
    exists w', ((seg ++ [EndPass (model w1)]) ++ ext).
    assert (Hstates : pass_states ((seg ++ [EndPass (model w1)]) ++ ext)
                      = model w1 :: pass_states ext).
    { rewrite !pass_states_app, Hps. reflexivity. }
    rewrite Hstates. split; [ | split; [exact HP' | split; [ | split; [ | split; [ | split; [ | split]]]]]].
    + rewrite Hloop, <- app_assoc, <- trace_of_app. reflexivity.
    + eapply same_data_trans; eauto.
    + rewrite Hcalls', Hcalls1, <- !app_assoc. reflexivity.
    + rewrite passes_of_closed, Hpo, (passes_of_no_end seg) by exact Hps.
      rewrite Hex, Hm. reflexivity.
    + simpl. congruence.
    + apply entered_in_app; [ | exact Hent' ].
      apply entered_in_app; [exact Hent | ].
      intros i s [Heq | []]. discriminate.
    + rewrite last_cons. exact Hlast.
Qed.

(** [fit] on well-formed input returns, having run every pass. *)
Lemma fit_run (c : config) (features : list (list Q)) (labels : list Q) (g : G) :
  (forall row, In row features -> length row = Py.ncols features) ->
  (0 < max_iter c)%nat ->
  eval_ok (Py.ncols features) X_test y_test ->
  (forall s0, init_args c features labels = Ok s0 -> P s0) ->
  exists (s0 : svm) (accs : list Q) (w : world G),
    init_args c features labels = Ok s0 /\
    fit c features labels X_test y_test g = Ok (accs, w) /\
    P (model w) /\ same_data s0 (model w) /\
    passes_of [] (calls w)
    = map (fun s => (seq 0 (length features), s)) (pass_states (calls w)) /\
    length (pass_states (calls w)) = max_iter c /\
    accs = trace_of X_test y_test (pass_states (calls w)) /\
    entered_in P (calls w) /\
    last (pass_states (calls w)) s0 = model w.
Proof.
  intros Hrect Hiter Heval Hinit.
  destruct (init_args_total c features labels (Py.ncols features) Hrect)
    as (s0 & Hs0).
  pose proof (init_args_inv _ _ _ _ Hs0)
    as (Hcfg & Hm & HX & HY & Ha & Hb & HE & Hn & Hrows & HK).
  destruct (fit_loop_run (seq 0 (max_iter c))
              {| model := s0; gen := g; calls := [] |} [])
    as (w & ext & Hloop & HP & Hsame & Hcalls & Hpo & Hlen & Hent & Hlast).
  - apply Hinit, Hs0.
  - intros row Hrow. simpl in *. rewrite HX in Hrow. auto.
  - simpl. rewrite Hn. exact Heval.
  - simpl in *. subst ext.
    exists s0, (trace_of X_test y_test (pass_states (calls w))), w.
    split; [exact Hs0 | split; [ | split; [exact HP | split; [exact Hsame | ]]]].
    + unfold fit. rewrite Hs0. cbn [bind]. rewrite Hloop. cbn [bind fst snd].
      destruct (max_iter c); [lia | reflexivity].
    + rewrite length_seq in Hlen. rewrite <- Hm.
      split; [exact Hpo | split; [exact Hlen | split; [reflexivity | split; assumption]]].
Qed.

End Training.

(** ** The three invariants are preserved by [update_alpha_pair] *)

Lemma shapes_update (s : svm) (i1 i2 : nat) (r : bool) (s' : svm) :
  shapes_ok s = true -> (i1 < m s)%nat -> (i2 < m s)%nat ->
  update_alpha_pair s i1 i2 = Ok (r, s') -> shapes_ok s' = true.
Proof.
  intros Hs H1 H2 Hrun. apply (update_alpha_pair_frame s s' i1 i2 r); assumption.
Qed.

Lemma box_inv_update (s : svm) (i1 i2 : nat) (r : bool) (s' : svm) :
  box_inv s -> (i1 < m s)%nat -> (i2 < m s)%nat ->
  update_alpha_pair s i1 i2 = Ok (r, s') -> box_inv s'.
Proof.
  intros (Hs & Hlab & Hbox) H1 H2 Hrun.
  destruct (update_alpha_pair_frame s s' i1 i2 r Hs H1 H2 Hrun)
    as [(_ & _ & _ & _ & HY & _) Hs'].
  split; [exact Hs' | split].
  - rewrite HY. exact Hlab.
  - apply (update_alpha_pair_box s s' i1 i2 r); assumption.
Qed.

Lemma train_inv_update (s : svm) (i1 i2 : nat) (r : bool) (s' : svm) :
  train_inv s -> (i1 < m s)%nat -> (i2 < m s)%nat ->
  update_alpha_pair s i1 i2 = Ok (r, s') -> train_inv s'.
Proof.
  intros (Hs & Hsym & Hcache) H1 H2 Hrun.
  destruct (update_alpha_pair_cases s i1 i2 Hs H1 H2)
    as [[Hfail _] | (Hne & Heta & e & Hok & Hlen & Hent)].
  - rewrite Hfail in Hrun. inversion Hrun; subst. repeat split; assumption.
  - pose proof (shapes_update s i1 i2 r s' Hs H1 H2 Hrun) as Hs'.
    rewrite Hok in Hrun. inversion Hrun; subst. clear Hrun.
    split; [exact Hs' | split].
    + exact Hsym.
    + intros i Hi. unfold E_at. simpl E. rewrite (Hent i Hi). reflexivity.
Qed.

(** ** The state built by [init_args] *)

Lemma sum_zero_terms (f : nat -> Q) (l : list nat) :
  (forall j, In j l -> f j == 0) -> Py.sum (map f l) == 0.
Proof.
  induction l as [|x l IH]; simpl; intros Hf; [reflexivity | ].
  rewrite (Hf x) by auto. rewrite IH by auto. ring.
Qed.

Section InitialState.

Context `{Exp}.
Variables (c : config) (features : list (list Q)) (labels : list Q) (s0 : svm).
Hypothesis labels_length : length labels = length features.
Hypothesis init : init_args c features labels = Ok s0.

Lemma init_shapes : shapes_ok s0 = true.
Proof.
  pose proof (init_args_inv _ _ _ _ init)
    as (Hcfg & Hm & HX & HY & Ha & Hb & HE & Hn & Hrows & HK).
  destruct (gram_correct _ _ _ eq_refl _ HK) as ([HKl HKr] & _).
  apply shapes_ok_iff. rewrite HX, HY, Ha, HE, Hm.
  unfold Py.zeros. rewrite repeat_length, length_map.
  repeat split; auto.
Qed.

Lemma init_symmetric : symmetric s0.
Proof.
  pose proof (init_args_inv _ _ _ _ init)
    as (Hcfg & Hm & HX & HY & Ha & Hb & HE & Hn & Hrows & HK).
  destruct (gram_correct _ _ _ eq_refl _ HK) as (_ & Hsym & _).
  intros i j Hi Hj. unfold K_at. apply Hsym; congruence.
Qed.

Lemma init_alpha_zero (j : nat) : alpha_at s0 j = 0.
Proof.
  pose proof (init_args_inv _ _ _ _ init) as (_ & _ & _ & _ & Ha & _).
  unfold alpha_at. rewrite Ha. unfold Py.zeros.
  destruct (Nat.lt_ge_cases j (length features)) as [Hlt|Hge].
  - apply nth_repeat_lt. exact Hlt.
  - apply nth_overflow. rewrite repeat_length. exact Hge.
Qed.

(** Immediately after initialisation [E_i = b − y_i = −y_i]. *)
Lemma init_E (i : nat) :
  (i < m s0)%nat -> E_at s0 i = b s0 - Y_at s0 i /\ E_at s0 i == - Y_at s0 i.
Proof.
  pose proof (init_args_inv _ _ _ _ init)
    as (Hcfg & Hm & HX & HY & Ha & Hb & HE & Hn & Hrows & HK).
  intros Hi. unfold E_at, Y_at. rewrite HE, HY, Hb.
  rewrite (nth_map_lt _ labels i 0 0) by lia. split; [reflexivity | ring].
Qed.

Lemma init_consistent : cache_consistent s0.
Proof.
  intros i Hi. destruct (init_E i Hi) as [_ ->].
  pose proof (init_args_inv _ _ _ _ init) as (_ & _ & _ & _ & _ & Hb & _).
  unfold Spec.error_entry. rewrite Hb.
  rewrite sum_zero_terms; [ring | ].
  intros j _. rewrite init_alpha_zero. ring.
Qed.

Lemma init_train_inv : train_inv s0.
Proof.
  split; [apply init_shapes | split; [apply init_symmetric | apply init_consistent]].
Qed.

Lemma init_box_inv : 0 < C c -> labels_ok labels = true -> box_inv s0.
Proof.
  pose proof (init_args_inv _ _ _ _ init)
    as (Hcfg & Hm & HX & HY & Ha & Hb & HE & Hn & Hrows & HK).
  intros HC Hlab. split; [apply init_shapes | split].
  - rewrite HY. exact Hlab.
  - unfold alpha_in_box. rewrite Ha, Hcfg. apply forallb_forall.
    intros a Ha0. apply repeat_spec in Ha0. subst a.
    apply in_box_iff. lra.
Qed.

End InitialState.

(** ** The first pair tried by [examine_example] *)

Lemma kkt_violated_iff (c a radius : Q) :
  kkt_violated c a radius = true <-> violation c a radius.
Proof.
  unfold kkt_violated, violation.
  rewrite !orb_true_iff, !andb_true_iff, !Qltb_lt, !Qle_bool_iff.
  split.
  - intros [[[? ?]|[? ?]]|[[? ?] ?]]; [left | right; left | right; right];
      repeat split; auto; lra.
  - intros [[? ?]|[[? ?]|[? [? ?]]]]; [left; left | left; right | right];
      repeat split; auto; lra.
Qed.

Section FirstAttempt.

Context {G : Type} `{RandomSource G}.

Lemma examine_example_no_violation (w : world G) (i1 : nat) (g : Q) :
  shapes_ok (model w) = true -> (i1 < m (model w))%nat ->
  function_g (model w) i1 = Ok g ->
  ~ violation (C (cfg (model w))) (alpha_at (model w) i1)
      ((g - Y_at (model w) i1) * Y_at (model w) i1) ->
  examine_example w i1 = Ok (false, log w (Examine i1 (model w))).
Proof.
  intros Hs H1 Hg Hno.
  pose proof (proj1 (shapes_ok_iff _) Hs) as (HX & HY & Ha & HE & HK & Hrows).
  unfold examine_example.
  change (model (log w (Examine i1 (model w)))) with (model w).
  rewrite Hg. cbn [bind].
  rewrite (getitem_nth (Y (model w)) i1 0), (getitem_nth (alpha (model w)) i1 0) by lia.
  cbn [bind]. fold (Y_at (model w) i1) (alpha_at (model w) i1).
  destruct (kkt_violated _ _ _) eqn:Hk; [ | reflexivity ].
  apply kkt_violated_iff in Hk. contradiction.
Qed.

Lemma examine_example_violation (w : world G) (i1 : nat) (g : Q) :
  shapes_ok (model w) = true -> (i1 < m (model w))%nat ->
  function_g (model w) i1 = Ok g ->
  violation (C (cfg (model w))) (alpha_at (model w) i1)
      ((g - Y_at (model w) i1) * Y_at (model w) i1) ->
  non_bound (model w) i1 <> [] ->
  exists (r : bool) (w' : world G) (j2 : nat) (tail : list event),
    examine_example w i1 = Ok (r, w') /\
    calls w' = calls w ++ Examine i1 (model w) :: Attempt i1 j2 :: tail /\
    In j2 (non_bound (model w) i1) /\
    forall j, In j (non_bound (model w) i1) ->
      Qabs (E_at (model w) j - (g - Y_at (model w) i1))
      <= Qabs (E_at (model w) j2 - (g - Y_at (model w) i1)).
Proof.
  intros Hs H1 Hg Hviol Hne.
  pose proof (proj1 (shapes_ok_iff _) Hs) as (HX & HY & Ha & HE & HK & Hrows).
  unfold examine_example.
  set (wl := log w (Examine i1 (model w))).
  assert (Hwl : calls wl = calls w ++ [Examine i1 (model w)]) by reflexivity.
  change (model wl) with (model w).
  rewrite Hg. cbn [bind].
  rewrite (getitem_nth (Y (model w)) i1 0), (getitem_nth (alpha (model w)) i1 0) by lia.
  cbn [bind]. fold (Y_at (model w) i1) (alpha_at (model w) i1).
  apply kkt_violated_iff in Hviol. rewrite Hviol.
  change (filter (fun k : nat => negb (k =? i1)%nat)
            (where_ (fun a : Q => Py.Qltb eps a && Py.Qltb a (C (cfg (model w)) - eps))
                    (alpha (model w))))
    with (non_bound (model w) i1).
  destruct (tier1_select (model w) i1 (g - Y_at (model w) i1)
              (non_bound (model w) i1) Hs Hne (fun j Hj => Hj))
    as (k & j2 & Htake & Harg & Hget & Hin & Hmax).
  destruct (non_bound (model w) i1) as [|j0 js] eqn:Hjs; [congruence | ].
  rewrite Htake. cbn [bind]. rewrite Harg. cbn [bind]. rewrite Hget. cbn [bind].
  assert (Hj2 : (j2 < m (model w))%nat).
  { rewrite <- Hjs in Hin. apply non_bound_In in Hin. lia. }
  destruct (attempt_run (fun s => shapes_ok s = true) (fun s Hs0 => Hs0) shapes_update
              wl i1 j2 Hs H1 Hj2)
    as (r & w1 & Hrun & _ & Hs1 & Hsame1 & Hcalls1 & _).
  rewrite Hrun. cbn [bind fst snd]. destruct r.
  - exists true, w1, j2, []. split; [reflexivity | split; [ | split; assumption]].
    rewrite Hcalls1, Hwl, <- app_assoc. reflexivity.
  - assert (Hm : m (model w1) = m (model w)) by apply Hsame1.
    destruct (scan_run (fun s => shapes_ok s = true) (fun s Hs0 => Hs0) shapes_update i1
                (fst (np_random_shuffle (gen w1) (seq 0 (m (model w1)))))
                (set_gen w1 (snd (np_random_shuffle (gen w1) (seq 0 (m (model w1)))))))
      as (r & w' & Hscan & _ & _ & tail & Htail & _).
    + exact Hs1.
    + simpl. rewrite Hm. exact H1.
    + intros j Hj. simpl.
      apply (Permutation_in j (Permutation_sym (np_random_shuffle_perm _ _))) in Hj.
      apply in_seq in Hj. lia.
    + exists r, w', j2, tail. split; [exact Hscan | split; [ | split; assumption]].
      rewrite Htail. simpl. rewrite Hcalls1, Hwl, <- !app_assoc. reflexivity.
Qed.

End FirstAttempt.

(** ** Binary64: the order of the comparisons *)

Lemma SFcompare_swap (x y : float64) :
  SFcompare y x = option_map CompOpp (SFcompare x y).
Proof.
  destruct x as [sx | sx | | sx mx ex], y as [sy | sy | | sy my ey];
    try destruct sx; try destruct sy; try reflexivity; simpl;
    change (Pos.compare_cont Eq my mx) with (Pos.compare my mx);
    change (Pos.compare_cont Eq mx my) with (Pos.compare mx my);
    rewrite (Z.compare_antisym ex ey), (Pos.compare_antisym mx my);
    destruct (ex ?= ey)%Z; simpl; try reflexivity;
    rewrite ?CompOpp_involutive; reflexivity.
Qed.

Lemma F64_leb_refl (x : float64) : F64.is_nan x = false -> F64.leb x x = true.
Proof.
  unfold F64.leb, SFleb.
  destruct x as [sx | sx | | sx mx ex]; try destruct sx; simpl;
    try reflexivity; try discriminate; intros _;
    rewrite Z.compare_refl;
    change (Pos.compare_cont Eq mx mx) with (Pos.compare mx mx);
    rewrite Pos.compare_refl; reflexivity.
Qed.

Lemma F64_ltb_leb (x y : float64) : F64.ltb x y = true -> F64.leb x y = true.
Proof.
  unfold F64.ltb, F64.leb, SFltb, SFleb.
  destruct (SFcompare x y) as [[ | | ] | ]; intros; congruence.
Qed.

Lemma F64_leb_not_nan (x y : float64) :
  F64.leb x y = true -> F64.is_nan x = false /\ F64.is_nan y = false.
Proof.
  unfold F64.leb, SFleb.
  destruct x, y; simpl; try discriminate; auto.
Qed.

(** Two numbers, neither of them NaN, are comparable. *)
Lemma F64_leb_total (x y : float64) :
  F64.is_nan x = false -> F64.is_nan y = false ->
  F64.ltb x y = false -> F64.leb y x = true.
Proof.
  unfold F64.ltb, F64.leb, SFltb, SFleb. intros Hx Hy.
  rewrite (SFcompare_swap x y).
  destruct (SFcompare x y) as [[ | | ] | ] eqn:Hc; simpl; try congruence.
  destruct x, y; simpl in *; congruence.
Qed.

Lemma F64_leb_finite (s1 s2 : bool) (m1 m2 : positive) (e1 e2 : Z) :
  F64.leb (S754_finite s1 m1 e1) (S754_finite s2 m2 e2) = true <->
  match s1, s2 with
  | true, false => True
  | false, true => False
  | false, false => magnitude_le m1 e1 m2 e2
  | true, true => magnitude_le m2 e2 m1 e1
  end.
Proof.
  unfold F64.leb, SFleb, magnitude_le. simpl.
  change (Pos.compare_cont Eq m1 m2) with (Pos.compare m1 m2).
  destruct s1, s2;
    destruct (Z.compare_spec e1 e2) as [He | He | He];
    destruct (Pos.compare_spec m1 m2) as [Hm | Hm | Hm]; simpl;
    split; intros H; first [reflexivity | discriminate | exact I | lia].
Qed.

Lemma F64_leb_trans (x y z : float64) :
  F64.leb x y = true -> F64.leb y z = true -> F64.leb x z = true.
Proof.
  destruct x as [sx | sx | | sx mx ex], y as [sy | sy | | sy my ey],
           z as [sz | sz | | sz mz ez];
    try (intros H1 H2; exact H1 || exact H2 || discriminate);
    try (destruct sx, sy, sz; intros H1 H2;
         (reflexivity || discriminate H1 || discriminate H2)).
  rewrite !F64_leb_finite. unfold magnitude_le.
  destruct sx, sy, sz; try tauto; lia.
Qed.

Lemma F64_add_comm (x y : float64) : F64.add x y = F64.add y x.
Proof.
  unfold F64.add, SFadd.
  destruct x as [sx | sx | | sx mx ex], y as [sy | sy | | sy my ey];
    try destruct sx; try destruct sy; try reflexivity;
    rewrite (Z.min_comm ey ex), Z.add_comm; reflexivity.
Qed.

(** ** Binary64: clipping and the bounds *)

Lemma b64_clip_alpha_range (x lo hi : float64) :
  F64.leb lo hi = true -> F64.is_nan (Binary64.clip_alpha x lo hi) = false ->
  F64.leb lo (Binary64.clip_alpha x lo hi) = true /\
  F64.leb (Binary64.clip_alpha x lo hi) hi = true.
Proof.
  intros Hlh. destruct (F64_leb_not_nan _ _ Hlh) as [Hlo Hhi].
  unfold Binary64.clip_alpha.
  destruct (F64.ltb hi x) eqn:H1; [ | destruct (F64.ltb x lo) eqn:H2 ]; intros Hn.
  - split; [exact Hlh | apply F64_leb_refl, Hhi].
  - split; [apply F64_leb_refl, Hlo | exact Hlh].
  - split; apply F64_leb_total; assumption.
Qed.

(** [max(0, x)] is never negative and never NaN. *)
Lemma b64_max_zero (x : float64) : F64.leb F64.zero (Binary64.max F64.zero x) = true.
Proof.
  unfold Binary64.max. destruct (F64.ltb F64.zero x) eqn:Hx.
  - apply F64_ltb_leb, Hx.
  - reflexivity.
Qed.

Lemma b64_min_le (c x : float64) :
  F64.is_nan (Binary64.min c x) = false -> F64.leb (Binary64.min c x) c = true.
Proof.
  unfold Binary64.min. destruct (F64.ltb x c) eqn:Hx; intros Hn.
  - apply F64_ltb_leb, Hx.
  - apply F64_leb_refl, Hn.
Qed.

(** ** Binary64: [create_E] and the recomputed error *)

Lemma broadcast2_nth_error (f : float64 -> float64 -> float64)
  (a b e : list float64) (i : nat) (x y : float64) :
  Binary64.broadcast2 f a b = Ok e ->
  nth_error a i = Some x -> nth_error b i = Some y ->
  nth_error e i = Some (f x y).
Proof.
  unfold Binary64.broadcast2. intros He Hx Hy.
  assert (Hzip : nth_error (map (fun p => f (fst p) (snd p)) (combine a b)) i
                 = Some (f x y)).
  { clear He. revert b i Hx Hy.
    induction a as [|h t IH]; intros [|hb tb] [|i] Hx Hy; simpl in *;
      try discriminate.
    - inversion Hx; inversion Hy; subst. reflexivity.
    - apply IH; assumption. }
  destruct (length a =? length b)%nat.
  - inversion He; subst. exact Hzip.
  - destruct a as [|x0 [|x1 t]].
    + destruct i; discriminate.
    + inversion He; subst.
      destruct i as [|i]; [ | destruct i; discriminate ].
      simpl in Hx. inversion Hx; subst.
      destruct b as [|hb tb]; [discriminate | ].
      simpl in Hy. inversion Hy; subst. reflexivity.
    + destruct b as [|y0 [|y1 tb]]; try discriminate.
      inversion He; subst.
      destruct i as [|i]; [ | destruct i; discriminate ].
      simpl in Hy. inversion Hy; subst.
      simpl in Hx. inversion Hx; subst. reflexivity.
Qed.

(** [create_E] writes the cache and nothing else. *)
Lemma b64_create_E_inv {D : Binary64.Dot} (s s' : Binary64.svm) :
  Binary64.create_E s = Ok s' ->
  exists ay e : list float64,
    Binary64.broadcast2 F64.mul (Binary64.alpha s) (Binary64.Y s) = Ok ay /\
    (length ay = length (Binary64.product_matrix s))%nat /\
    Binary64.broadcast2 F64.sub
      (map (fun t => F64.add t (Binary64.b s))
           (Binary64.np_dot_matrix ay (Binary64.product_matrix s)))
      (Binary64.Y s) = Ok e /\
    s' = Binary64.set_E s e.
Proof.
  unfold Binary64.create_E. intros H.
  destruct (Binary64.broadcast2 F64.mul (Binary64.alpha s) (Binary64.Y s))
    as [ay | ] eqn:Hay; cbn [bind] in H; [ | discriminate ].
  unfold Binary64.dot_vm in H.
  destruct (Nat.eqb_spec (length ay) (length (Binary64.product_matrix s)))
    as [Hl | Hl]; cbn [bind] in H; [ | discriminate ].
  destruct (Binary64.broadcast2 F64.sub _ (Binary64.Y s)) as [e | ] eqn:He;
    cbn [bind] in H; [ | discriminate ].
  inversion H; subst. exists ay, e. repeat split; assumption.
Qed.

(** The cache depends on the multipliers, the bias, the labels and the
    matrix alone: recomputing it twice changes nothing. *)
Lemma b64_create_E_idempotent {D : Binary64.Dot} (s s' : Binary64.svm) :
  Binary64.create_E s = Ok s' -> Binary64.create_E s' = Ok s'.
Proof.
  intros Hc. destruct (b64_create_E_inv _ _ Hc) as (ay & e & Hay & Hlen & He & ->).
  unfold Binary64.create_E, Binary64.dot_vm.
  cbn [Binary64.alpha Binary64.Y Binary64.product_matrix Binary64.b Binary64.set_E].
  rewrite Hay. cbn [bind]. rewrite Hlen, Nat.eqb_refl. cbn [bind]. rewrite He.
  reflexivity.
Qed.

(** A committed pair update ends with [create_E]. *)
Lemma b64_update_alpha_pair_cache {D : Binary64.Dot} (s s' : Binary64.svm)
  (i1 i2 : nat) :
  Binary64.update_alpha_pair s i1 i2 = Ok (true, s') ->
  Binary64.create_E s' = Ok s'.
Proof.
  unfold Binary64.update_alpha_pair. intros Hrun.
  destruct (i1 =? i2)%nat; [discriminate | ].
  do 9 inv_bind Hrun.
  destruct (F64.leb _ F64.zero); [discriminate | ].
  do 4 inv_bind Hrun. inversion Hrun; subst.
  eapply b64_create_E_idempotent; eassumption.
Qed.

(** The recomputed [E1] and the cached entry are the same expression up to
    the product inside: where the two products agree, so do the errors. *)
Lemma b64_fresh_error_cached {D : Binary64.Dot} (s s' : Binary64.svm) (i1 : nat)
  (fresh cached : float64) :
  Binary64.create_E s = Ok s' ->
  Binary64.dots_agree s i1 ->
  Binary64.examine_example_E1 s' i1 = Ok fresh ->
  Py.getitem (Binary64.E s') i1 = Ok cached ->
  fresh = cached.
Proof.
  intros Hc Hagree Hf Hcached.
  destruct (b64_create_E_inv _ _ Hc) as (ay & e & Hay & Hlen & He & ->).
  unfold Binary64.examine_example_E1, Binary64.function_g in Hf.
  cbn [Binary64.alpha Binary64.Y Binary64.product_matrix Binary64.b Binary64.set_E] in Hf.
  rewrite Hay in Hf. cbn [bind] in Hf.
  destruct (Py.getitem (Binary64.product_matrix s) i1) as [row | ] eqn:Hrow;
    cbn [bind] in Hf; [ | discriminate ].
  unfold Binary64.dot in Hf.
  destruct (length ay =? length row)%nat; cbn [bind] in Hf; [ | discriminate ].
  destruct (Py.getitem (Binary64.Y s) i1) as [y | ] eqn:Hy;
    cbn [bind] in Hf; [ | discriminate ].
  inversion Hf; subst fresh. clear Hf.
  pose proof (Hagree ay row Hay Hrow) as Hd.
  cbn [Binary64.E Binary64.set_E] in Hcached.
  unfold Py.getitem in Hcached, Hy.
  destruct (nth_error (Binary64.Y s) i1) as [y' | ] eqn:Hy'; [ | discriminate ].
  inversion Hy; subst y'. clear Hy.
  assert (Hent : nth_error e i1
                 = Some (Binary64.np_dot_vector ay row + Binary64.b s - y)%f64).
  { apply (broadcast2_nth_error F64.sub _ _ _ _ _ _ He); [ | exact Hy'].
    rewrite nth_error_map, Hd. reflexivity. }
  rewrite Hent in Hcached. inversion Hcached; subst cached.
  rewrite (F64_add_comm (Binary64.b s)). reflexivity.
Qed.

(** * The claims *)

(** Closed side conditions on the example states are settled by evaluation. *)
Ltac by_computation :=
  first [ assumption | vm_compute; reflexivity | vm_compute; lia ].



(** The step from a state with equal cached errors has length zero, and is
    still reported as a success. *)
Lemma update_alpha_pair_null_step :
  exists s' : svm,
    update_alpha_pair same_class_init 0 1 = Ok (true, s') /\
    Forall2 Qeq (alpha s') (alpha same_class_init).
Proof.
  eexists. split; [vm_compute; reflexivity | ].
  repeat constructor.
Qed.



(** The box in rational arithmetic.  From a state with [C > 0], labels in
    [{-1, +1}] and every multiplier in [[0, C]], a call of [update_alpha_pair]
    computed without rounding leaves every multiplier in [[0, C]]; hence, the
    multipliers starting at zero, they all lie in [[0, C]] whenever [fit]
    returns.  Rounding breaks this for the multiplier that is not clipped. *)
Theorem alpha_stays_in_box :
  (forall (s s' : svm) (i1 i2 : nat) (r : bool),
     shapes_ok s = true -> (i1 < m s)%nat -> (i2 < m s)%nat ->
     labels_ok (Y s) = true -> 0 < C (cfg s) -> alpha_in_box s = true ->
     update_alpha_pair s i1 i2 = Ok (r, s') ->
     forall k : nat, (k < m s)%nat -> 0 <= alpha_at s' k <= C (cfg s))
  /\
  (forall (G : Type) (RS : RandomSource G) (EX : Exp) (c : config)
          (features : list (list Q)) (labels : list Q)
          (X_test : option (list (list Q))) (y_test : option (list Q)) (g : G)
          (accs : list Q) (w : world G),
     0 < C c -> labels_ok labels = true -> length labels = length features ->
     fit c features labels X_test y_test g = Ok (accs, w) ->
     forall i : nat, (i < length features)%nat -> 0 <= alpha_at (model w) i <= C c).
Proof.
  split.
  - intros s s' i1 i2 r Hs H1 H2 Hlab HC Hbox Hrun k Hk.
    pose proof (update_alpha_pair_box s s' i1 i2 r Hs H1 H2 Hlab Hbox Hrun) as Hbox'.
    destruct (update_alpha_pair_frame s s' i1 i2 r Hs H1 H2 Hrun)
      as [(Hcfg & Hm & _) Hs'].
    apply shapes_ok_iff in Hs'. destruct Hs' as (_ & _ & Ha' & _).
    rewrite <- Hcfg. apply in_box_iff. unfold alpha_at.
    apply forallb_nth; [exact Hbox' | lia].
  - intros G RS EX c features labels X_test y_test g accs w HC Hlab Hlen Hrun i Hi.
    destruct (fit_inv box_inv (fun s Hb => proj1 Hb) box_inv_update X_test y_test
                c features labels g accs w)
      as ((Hs & _ & Hbox) & _ & s0 & Hs0 & Hcfg & Hm & _).
    + intros s1 Hs1. apply (init_box_inv c features labels s1); assumption.
    + exact Hrun.
    + pose proof (init_args_inv _ _ _ _ Hs0) as (Hc0 & Hm0 & _).
      apply shapes_ok_iff in Hs. destruct Hs as (_ & _ & Ha & _).
      replace (C c) with (C (cfg (model w))) by (rewrite Hcfg, Hc0; reflexivity).
      apply in_box_iff. unfold alpha_at. apply forallb_nth; [exact Hbox | ].
      rewrite Ha, Hm, Hm0. exact Hi.
Qed.

Lemma alpha_stays_in_box_witness :
  (exists s' : svm,
     update_alpha_pair two_points_init 0 1 = Ok (true, s') /\
     0 <= alpha_at s' 1 <= C cfg_linear) /\
  (exists (accs : list Q) (w : world unit),
     fit cfg_linear two_points two_labels None None tt = Ok (accs, w) /\
     0 <= alpha_at (model w) 0 <= C cfg_linear).
Proof.
  destruct alpha_stays_in_box as [Hpair Hfit].
  assert (HC : 0 < C cfg_linear) by (vm_compute; reflexivity).
  assert (Hlab : labels_ok two_labels = true) by (vm_compute; reflexivity).
  split.
  - assert (Hrun : exists s', update_alpha_pair two_points_init 0 1 = Ok (true, s'))
      by (eexists; vm_compute; reflexivity).
    destruct Hrun as (s' & Hrun). exists s'. split; [exact Hrun | ].
    apply (Hpair two_points_init s' 0%nat 1%nat true); by_computation.
  - assert (Hrun : exists accs w,
              fit cfg_linear two_points two_labels None None tt = Ok (accs, w))
      by (eexists _, _; vm_compute; reflexivity).
    destruct Hrun as (accs & w & Hrun). exists accs, w. split; [exact Hrun | ].
    apply (Hfit unit reversing_source exp_rational cfg_linear two_points two_labels
             None None tt accs w HC Hlab eq_refl Hrun 0%nat).
    vm_compute; lia.
Defined.




(** The cache in rational arithmetic.  After [init_args] it holds
    [b - y_i = -y_i]; after every successful pair update it holds
    [(alpha ⊙ y)·K + b·1 − y] for the committed values; and, computed without
    rounding, the [E1 = g(x_i1) − y_i1] recomputed at every entry of
    [examine_example] during [fit] equals the cached [E[i1]]. *)
Theorem error_cache_consistent :
  (forall (EX : Exp) (c : config) (features : list (list Q)) (labels : list Q)
          (s0 : svm),
     length labels = length features ->
     init_args c features labels = Ok s0 ->
     forall i : nat, (i < m s0)%nat ->
       E_at s0 i = b s0 - Y_at s0 i /\ E_at s0 i == - Y_at s0 i)
  /\
  (forall (s s' : svm) (i1 i2 : nat),
     shapes_ok s = true -> (i1 < m s)%nat -> (i2 < m s)%nat ->
     update_alpha_pair s i1 i2 = Ok (true, s') ->
     forall i : nat, (i < m s)%nat -> E_at s' i = Spec.error_entry s' i)
  /\
  (forall (G : Type) (RS : RandomSource G) (EX : Exp) (c : config)
          (features : list (list Q)) (labels : list Q)
          (X_test : option (list (list Q))) (y_test : option (list Q)) (g : G)
          (accs : list Q) (w : world G),
     length labels = length features ->
     fit c features labels X_test y_test g = Ok (accs, w) ->
     forall (i1 : nat) (s : svm), In (Examine i1 s) (calls w) ->
       exists g1 : Q, function_g s i1 = Ok g1 /\ g1 - Y_at s i1 == E_at s i1).
Proof.
  split; [ | split].
  - intros EX c features labels s0 Hlen Hinit i Hi.
    apply (init_E c features labels s0 Hlen Hinit i Hi).
  - intros s s' i1 i2 Hs H1 H2 Hrun i Hi.
    destruct (update_alpha_pair_cases s i1 i2 Hs H1 H2)
      as [[Hfail _] | (_ & _ & e & Hok & _ & Hent)].
    + rewrite Hfail in Hrun. discriminate.
    + rewrite Hok in Hrun. inversion Hrun; subst.
      unfold E_at. simpl E. apply Hent, Hi.
  - intros G RS EX c features labels X_test y_test g accs w Hlen Hrun i1 s Hin.
    destruct (fit_inv train_inv (fun s0 Ht => proj1 Ht) train_inv_update X_test y_test
                c features labels g accs w) as (_ & Hent & _).
    + intros s0 Hs0. apply (init_train_inv c features labels s0); assumption.
    + exact Hrun.
    + destruct (Hent i1 s Hin) as [Hinv Hi1].
      apply fresh_error_cached; assumption.
Qed.

Lemma error_cache_consistent_witness :
  (E_at two_points_init 0 == - Y_at two_points_init 0) /\
  (exists s' : svm,
     update_alpha_pair two_points_init 0 1 = Ok (true, s') /\
     E_at s' 0 = Spec.error_entry s' 0) /\
  (exists (accs : list Q) (w : world unit) (s : svm) (g1 : Q),
     fit cfg_linear two_points two_labels None None tt = Ok (accs, w) /\
     In (Examine 1 s) (calls w) /\
     function_g s 1 = Ok g1 /\ g1 - Y_at s 1 == E_at s 1).
Proof.
  destruct error_cache_consistent as (Hinit & Hupd & Hfit). split; [ | split].
  - apply (Hinit exp_rational cfg_linear two_points two_labels two_points_init).
    + reflexivity.
    + vm_compute; reflexivity.
    + vm_compute; lia.
  - assert (Hrun : exists s', update_alpha_pair two_points_init 0 1 = Ok (true, s'))
      by (eexists; vm_compute; reflexivity).
    destruct Hrun as (s' & Hrun). exists s'. split; [exact Hrun | ].
    apply (Hupd two_points_init s' 0%nat 1%nat); by_computation.
  - assert (Hrun : exists (accs : list Q) (w : world unit) (s : svm),
              fit cfg_linear two_points two_labels None None tt = Ok (accs, w) /\
              In (Examine 1 s) (calls w)).
    { eexists _, _, _. split; [vm_compute; reflexivity | ].
      right. right. left. reflexivity. }
    destruct Hrun as (accs & w & s & Hrun & Hin).
    destruct (Hfit unit reversing_source exp_rational cfg_linear two_points two_labels
                None None tt accs w eq_refl Hrun 1%nat s Hin) as (g1 & Hg & Heq).
    exists accs, w, s, g1. auto.
Defined.

(** With a vector-vector product that uses fused multiply-add the recomputed
    error misses the cached one.  [two_points_updated] is the state in which
    the first pass of [fit] enters [examine_example(1)]: its cache is the one
    [create_E] stored, with [E[1] = 0], and the recomputed
    [E1 = function_g(1) - Y[1]] is [-2^-51], about [-4.4e-16]. *)
Lemma fused_dot_misses_cached_error :
  @Binary64.update_alpha_pair Binary64.dot_fused_vectors Binary64.two_points_init 0 1
  = Ok (true, Binary64.two_points_updated) /\
  @Binary64.create_E Binary64.dot_fused_vectors Binary64.two_points_updated
  = Ok Binary64.two_points_updated /\
  Py.getitem (Binary64.E Binary64.two_points_updated) 1 = Ok F64.zero /\
  @Binary64.examine_example_E1 Binary64.dot_fused_vectors Binary64.two_points_updated 1
  = Ok (S754_finite true 4503599627370496 (-103)) /\
  F64.eqb (S754_finite true 4503599627370496 (-103)) F64.zero = false.
Proof. repeat split; vm_compute; reflexivity. Qed.

(** C4 (amended). After [init_args] the cache holds [b - y_i = -y_i]; after
    every successful pair update it holds [(alpha ⊙ y)·K + b·1 − y] for the
    committed values, and in binary64 it is exactly what [create_E] computes
    for them.  At a state whose cache [create_E] stored, the recomputed
    [E1 = function_g(i1) − Y[i1]] equals the cached [E[i1]] whenever
    [np.dot] rounds its vector-vector product with row [i1] to entry [i1] of
    its vector-matrix product. *)
Theorem error_cache_recomputed :
  (forall (EX : Exp) (c : config) (features : list (list Q)) (labels : list Q)
          (s0 : svm),
     length labels = length features ->
     init_args c features labels = Ok s0 ->
     forall i : nat, (i < m s0)%nat ->
       E_at s0 i = b s0 - Y_at s0 i /\ E_at s0 i == - Y_at s0 i)
  /\
  (forall (s s' : svm) (i1 i2 : nat),
     shapes_ok s = true -> (i1 < m s)%nat -> (i2 < m s)%nat ->
     update_alpha_pair s i1 i2 = Ok (true, s') ->
     forall i : nat, (i < m s)%nat -> E_at s' i = Spec.error_entry s' i)
  /\
  (forall (D : Binary64.Dot) (s s' : Binary64.svm) (i1 i2 : nat),
     Binary64.update_alpha_pair s i1 i2 = Ok (true, s') ->
     Binary64.create_E s' = Ok s')
  /\
  (forall (D : Binary64.Dot) (s : Binary64.svm) (i1 : nat) (fresh cached : float64),
     Binary64.create_E s = Ok s ->
     Binary64.dots_agree s i1 ->
     Binary64.examine_example_E1 s i1 = Ok fresh ->
     Py.getitem (Binary64.E s) i1 = Ok cached ->
     fresh = cached).
Proof.
  split; [ | split; [ | split]].
  - intros EX c features labels s0 Hlen Hinit i Hi.
    apply (init_E c features labels s0 Hlen Hinit i Hi).
  - intros s s' i1 i2 Hs H1 H2 Hrun i Hi.
    destruct (update_alpha_pair_cases s i1 i2 Hs H1 H2)
      as [[Hfail _] | (_ & _ & e & Hok & _ & Hent)].
    + rewrite Hfail in Hrun. discriminate.
    + rewrite Hok in Hrun. inversion Hrun; subst.
      unfold E_at. simpl E. apply Hent, Hi.
  - intros D s s' i1 i2 Hrun. apply (b64_update_alpha_pair_cache s s' i1 i2 Hrun).
  - intros D s i1 fresh cached Hc Hagree Hf Hcached.
    apply (b64_fresh_error_cached s s i1 fresh cached Hc Hagree Hf Hcached).
Qed.

Lemma error_cache_recomputed_witness :
  (E_at two_points_init 0 == - Y_at two_points_init 0) /\
  (exists s' : svm,
     update_alpha_pair two_points_init 0 1 = Ok (true, s') /\
     E_at s' 0 = Spec.error_entry s' 0) /\
  @Binary64.create_E Binary64.dot_plain Binary64.three_points_updated
  = Ok Binary64.three_points_updated /\
  (exists e1 : float64,
     @Binary64.examine_example_E1 Binary64.dot_plain Binary64.three_points_updated 2
     = Ok e1 /\
     Py.getitem (Binary64.E Binary64.three_points_updated) 2 = Ok e1).
Proof.
  destruct error_cache_recomputed as (Hinit & Hupd & Hcache & Hfresh).
  split; [ | split; [ | split]].
  - apply (Hinit exp_rational cfg_linear two_points two_labels two_points_init).
    + reflexivity.
    + vm_compute; reflexivity.
    + vm_compute; lia.
  - assert (Hrun : exists s', update_alpha_pair two_points_init 0 1 = Ok (true, s'))
      by (eexists; vm_compute; reflexivity).
    destruct Hrun as (s' & Hrun). exists s'. split; [exact Hrun | ].
    apply (Hupd two_points_init s' 0%nat 1%nat); by_computation.
  - apply (Hcache Binary64.dot_plain Binary64.three_points
             Binary64.three_points_updated 0%nat 1%nat).
    vm_compute; reflexivity.
  - assert (He : exists e1,
              @Binary64.examine_example_E1 Binary64.dot_plain
                Binary64.three_points_updated 2 = Ok e1)
      by (eexists; vm_compute; reflexivity).
    destruct He as (e1 & He). exists e1. split; [exact He | ].
    assert (Hc : exists c1,
              Py.getitem (Binary64.E Binary64.three_points_updated) 2 = Ok c1)
      by (eexists; vm_compute; reflexivity).
    destruct Hc as (c1 & Hc). rewrite Hc. f_equal. symmetry.
    apply (Hfresh Binary64.dot_plain Binary64.three_points_updated 2%nat e1 c1).
    + vm_compute; reflexivity.
    + intros ay row Hay Hrow. vm_compute in Hay, Hrow.
      inversion Hay; inversion Hrow; subst. vm_compute; reflexivity.
    + exact He.
    + exact Hc.
Defined.





(** A decision value of exactly zero is classified [-1]. *)
Lemma predict_zero_is_negative :
  decision_function two_points_trained (Arr1 [0; 5]) = Ok [0 # 4] /\
  predict two_points_trained [0; 5] = Ok (-1)%Z.
Proof. split; vm_compute; reflexivity. Qed.

(** With a pairwise function that is not symmetric the mirrored entry below
    the diagonal is not the value of the function at that pair. *)
Lemma gram_mirrors_not_recomputes :
  exists K : list (list Q),
    gram first_coordinate [[1]; [2]] 2 = Ok K /\
    first_coordinate (nth 1 [[1]; [2]] []) (nth 0 [[1]; [2]] []) = Ok 2 /\
    entry K 1 0 = 1.
Proof.
  eexists. split; [vm_compute; reflexivity | split; reflexivity].
Qed.

(** C8. Once [computer_product_matrix] has returned, the matrix is symmetric
    and [product_matrix[i][j]] is [kernel(x_i, x_j)] for all [i], [j].  Only
    the pairs [i <= j] are evaluated: for any pairwise function in place of
    the kernel the entry at [i > j] is the value at [(x_j, x_i)], so it is the
    value at [(x_i, x_j)] when the function is symmetric, as [kernel] is. *)
Theorem product_matrix_symmetric_kernel {EX : Exp} (s s' : svm) :
  length (X s) = m s -> computer_product_matrix s = Ok s' ->
  (forall i j : nat, (i < m s)%nat -> (j < m s)%nat -> K_at s' i j = K_at s' j i) /\
  (forall i j : nat, (i < m s)%nat -> (j < m s)%nat ->
     kernel (_kernel (cfg s)) (nth i (X s) []) (nth j (X s) []) = Ok (K_at s' i j)) /\
  (forall (k : list Q -> list Q -> result Q) (K : list (list Q)),
     gram k (X s) (m s) = Ok K ->
     (forall i j : nat, (i <= j)%nat -> (j < m s)%nat ->
        k (nth i (X s) []) (nth j (X s) []) = Ok (entry K i j)) /\
     (forall i j : nat, (j < i)%nat -> (i < m s)%nat ->
        k (nth j (X s) []) (nth i (X s) []) = Ok (entry K i j)) /\
     ((forall a c : list Q, k a c = k c a) ->
      forall i j : nat, (i < m s)%nat -> (j < m s)%nat ->
        k (nth i (X s) []) (nth j (X s) []) = Ok (entry K i j))).
Proof.
  intros HX Hrun.
  assert (Hgen : forall (k : list Q -> list Q -> result Q) (K : list (list Q)),
     gram k (X s) (m s) = Ok K ->
     (forall i j : nat, (i < m s)%nat -> (j < m s)%nat -> entry K i j = entry K j i) /\
     (forall i j : nat, (i <= j)%nat -> (j < m s)%nat ->
        k (nth i (X s) []) (nth j (X s) []) = Ok (entry K i j)) /\
     (forall i j : nat, (j < i)%nat -> (i < m s)%nat ->
        k (nth j (X s) []) (nth i (X s) []) = Ok (entry K i j)) /\
     ((forall a c : list Q, k a c = k c a) ->
      forall i j : nat, (i < m s)%nat -> (j < m s)%nat ->
        k (nth i (X s) []) (nth j (X s) []) = Ok (entry K i j))).
  { intros k K HK.
    destruct (gram_correct k (X s) (m s) HX K HK) as (_ & Hsym & Hup).
    assert (Hlow : forall i j : nat, (j < i)%nat -> (i < m s)%nat ->
              k (nth j (X s) []) (nth i (X s) []) = Ok (entry K i j)).
    { intros i j Hji Hi. rewrite (Hsym i j) by lia. apply Hup; lia. }
    split; [exact Hsym | split; [exact Hup | split; [exact Hlow | ]]].
    intros Hk i j Hi Hj. destruct (Nat.le_gt_cases i j) as [Hij | Hij].
    - apply Hup; assumption.
    - rewrite Hk. apply Hlow; assumption. }
  unfold computer_product_matrix in Hrun. inv_bind Hrun. inversion Hrun; subst s'.
  destruct (Hgen _ _ Hv) as (Hsym & _ & _ & Hall).
  split; [exact Hsym | split].
  - apply Hall. intros a c. apply kernel_comm.
  - intros k K HK. destruct (Hgen k K HK) as (_ & H1 & H2 & H3). auto.
Qed.

Lemma product_matrix_symmetric_kernel_witness :
  exists s' : svm,
    computer_product_matrix two_points_init = Ok s' /\
    K_at s' 0 1 = K_at s' 1 0 /\
    kernel "linear" (nth 1 two_points []) (nth 0 two_points []) = Ok (K_at s' 1 0).
Proof.
  assert (Hrun : exists s', computer_product_matrix two_points_init = Ok s')
    by (eexists; vm_compute; reflexivity).
  destruct Hrun as (s' & Hrun). exists s'.
  destruct (product_matrix_symmetric_kernel two_points_init s' eq_refl Hrun)
    as (Hsym & Hker & _).
  split; [exact Hrun | split].
  - apply Hsym; by_computation.
  - apply (Hker 1%nat 0%nat); by_computation.
Defined.

(** C9. A kernel name other than linear, poly and rbf makes [kernel] return
    0 for every pair of vectors, of any lengths, without raising; the Gram
    matrix is then built and is zero everywhere, and the decision value is the
    bias alone. *)
Theorem unknown_kernel_is_zero {EX : Exp} (name : string) :
  name <> "linear"%string -> name <> "poly"%string -> name <> "rbf"%string ->
  (forall x1 x2 : list Q, kernel name x1 x2 = Ok 0) /\
  (forall s : svm, _kernel (cfg s) = name -> length (X s) = m s ->
     exists s' : svm,
       computer_product_matrix s = Ok s' /\
       forall i j : nat, (i < m s)%nat -> (j < m s)%nat -> K_at s' i j = 0) /\
  (forall (s : svm) (x : list Q), _kernel (cfg s) = name -> shapes_ok s = true ->
     exists r : Q,
       decision_function s (Arr1 x) = Ok [r] /\ r == b s /\
       predict s x = Ok (if Qlt_le_dec 0 (b s) then 1%Z else (-1)%Z)).
Proof.
  intros Hl Hp Hr.
  assert (Hzero : forall x1 x2 : list Q, kernel name x1 x2 = Ok 0)
    by (intros; apply kernel_unknown; assumption).
  split; [exact Hzero | split].
  - intros s Hname HX. unfold computer_product_matrix. rewrite Hname.
    destruct (gram_total (kernel name) (X s) (m s) HX) as (K & HK).
    { intros i j _ _. eauto. }
    rewrite HK. cbn [bind]. eexists. split; [reflexivity | ].
    destruct (gram_correct _ _ _ HX K HK) as (_ & Hsym & Hup).
    assert (Hupz : forall i j : nat, (i <= j)%nat -> (j < m s)%nat -> entry K i j = 0).
    { intros i j Hij Hj. specialize (Hup i j Hij Hj). rewrite Hzero in Hup. congruence. }
    intros i j Hi Hj. unfold K_at. simpl.
    destruct (Nat.le_gt_cases i j) as [Hij | Hij].
    + apply Hupz; assumption.
    + rewrite Hsym by assumption. apply Hupz; lia.
  - intros s x Hname Hs.
    destruct (decision_loop_returns s x (m s) Hs) with (start := 0%nat) (r0 := b s)
      as (r & Hloop); [ | lia | ].
    { intros j _. rewrite Hname. eauto. }
    destruct (decision_loop_inv s x (m s) 0%nat (b s) r Hloop) as (kv & _ & Hkv & Hrv).
    assert (Hdec : decision_function s (Arr1 x) = Ok [r]).
    { unfold decision_function. rewrite Hloop. reflexivity. }
    assert (Hrb : r == b s).
    { rewrite Hrv. rewrite sum_zero_terms; [ring | ].
      intros j Hj. apply in_seq in Hj.
      assert (Hz : nth j kv 0 = 0).
      { specialize (Hkv j ltac:(lia)). rewrite Hname, Hzero in Hkv. congruence. }
      rewrite Hz. ring. }
    exists r. split; [exact Hdec | split; [exact Hrb | ]].
    rewrite (predict_decision s x r Hdec).
    destruct (Py.Qltb 0 r) eqn:Hb;
      [apply Qltb_lt in Hb | apply Qltb_ge in Hb];
      destruct (Qlt_le_dec 0 (b s)); try reflexivity; lra.
Qed.

Lemma unknown_kernel_is_zero_witness :
  kernel "sigmoid" [1; 2] [3] = Ok 0 /\
  (exists s' : svm,
     computer_product_matrix two_points_unknown = Ok s' /\ K_at s' 0 1 = 0) /\
  (exists r : Q,
     decision_function two_points_unknown (Arr1 [7]) = Ok [r] /\
     r == b two_points_unknown).
Proof.
  destruct (unknown_kernel_is_zero "sigmoid") as (Hker & Hgram & Hdec);
    try discriminate.
  split; [apply Hker | split].
  - destruct (Hgram two_points_unknown eq_refl eq_refl) as (s' & Hrun & Hzero).
    exists s'. split; [exact Hrun | apply Hzero; by_computation].
  - destruct (Hdec two_points_unknown [7] eq_refl) as (r & Hr & Hb & _);
      [by_computation | ].
    exists r. auto.
Defined.

Lemma fraction_bounds (k size : nat) :
  (k <= size)%nat -> (0 < size)%nat ->
  0 <= inject_Z (Z.of_nat k) / inject_Z (Z.of_nat size) <= 1.
Proof.
  intros Hk Hs.
  assert (Hpos : 0 < inject_Z (Z.of_nat size)).
  { change 0 with (inject_Z 0). rewrite <- Zlt_Qlt. lia. }
  assert (Hk0 : 0 <= inject_Z (Z.of_nat k)).
  { change 0 with (inject_Z 0). rewrite <- Zle_Qle. lia. }
  assert (Hks : inject_Z (Z.of_nat k) <= inject_Z (Z.of_nat size)).
  { rewrite <- Zle_Qle. lia. }
  split.
  - apply Qle_shift_div_l; [exact Hpos | lra].
  - apply Qle_shift_div_r; [exact Hpos | lra].
Qed.

Lemma matches_le {EX : Exp} (s : svm) (X_test : list (list Q)) (y_test : list Q) :
  (matches s X_test y_test <= length X_test)%nat.
Proof.
  unfold matches.
  etransitivity; [apply filter_length_le | ]. rewrite length_seq. lia.
Qed.

(** C10. [score] divides by [len(X_test)] unguarded: on an empty evaluation
    set it raises [ZeroDivisionError]; on a non-empty, well-shaped one it
    returns the fraction of correct predictions, a number in [[0, 1]]. *)
Theorem score_needs_nonempty_set {EX : Exp} (s : svm) :
  (forall y_test : list Q, score s [] y_test = Raise ZeroDivisionError) /\
  (forall (X_test : list (list Q)) (y_test : list Q),
     shapes_ok s = true -> rows_ok s ->
     X_test <> [] -> (length X_test <= length y_test)%nat ->
     (forall x : list Q, In x X_test -> length x = n s) ->
     score s X_test y_test = Ok (accuracy s X_test y_test) /\
     0 <= accuracy s X_test y_test <= 1).
Proof.
  split; [intros; apply score_empty | ].
  intros X_test y_test Hs Hrows Hne Hlen Hdim. split.
  - apply score_run; [exact Hs | exact Hrows | ]. repeat split; assumption.
  - unfold accuracy. apply fraction_bounds; [apply matches_le | ].
    destruct X_test; [congruence | simpl; lia].
Qed.

Lemma score_needs_nonempty_set_witness :
  score two_points_trained [] [] = Raise ZeroDivisionError /\
  score two_points_trained four_queries four_labels
  = Ok (accuracy two_points_trained four_queries four_labels) /\
  0 <= accuracy two_points_trained four_queries four_labels <= 1.
Proof.
  destruct (score_needs_nonempty_set two_points_trained) as [Hempty Hfull].
  split; [apply Hempty | ].
  apply Hfull.
  - by_computation.
  - intros row [<- | [<- | []]]; reflexivity.
  - discriminate.
  - by_computation.
  - intros x [<- | [<- | [<- | [<- | []]]]]; reflexivity.
Defined.

(** The example of the specification: predictions [1, -1, 1, 1] against
    labels [1, 1, 1, 1] score 0.75. *)
Lemma score_three_quarters :
  map (predict two_points_trained) four_queries
  = [Ok 1%Z; Ok (-1)%Z; Ok 1%Z; Ok 1%Z] /\
  score two_points_trained four_queries four_labels = Ok (3 # 4) /\
  accuracy two_points_trained four_queries four_labels = 3 # 4.
Proof. repeat split; vm_compute; reflexivity. Qed.

(** On an empty evaluation set [fit] stops in its first pass. *)
Lemma fit_empty_evaluation_set_raises :
  fit cfg_linear two_points two_labels (Some []) (Some []) tt
  = Raise ZeroDivisionError /\
  ~ (exists (accs : list Q) (w : world unit),
       fit cfg_linear two_points two_labels (Some []) (Some []) tt = Ok (accs, w) /\
       length accs = max_iter cfg_linear).
Proof.
  assert (Hrun : fit cfg_linear two_points two_labels (Some []) (Some []) tt
                 = Raise ZeroDivisionError) by (vm_compute; reflexivity).
  split; [exact Hrun | ].
  intros (accs & w & Hok & _). rewrite Hrun in Hok. discriminate.
Qed.

(** On well-formed training data and with at least one pass to run, an empty
    evaluation set stops [fit] at the end of its first pass, whatever the
    labels given with it: [score] divides by [len(X_test)]. *)
Lemma fit_stops_on_empty_evaluation_set {G : Type} {RS : RandomSource G} {EX : Exp}
  (c : config) (features : list (list Q)) (labels : list Q) (yt : list Q) (g : G) :
  (forall row : list Q, In row features -> length row = Py.ncols features) ->
  length labels = length features ->
  (0 < max_iter c)%nat ->
  fit c features labels (Some []) (Some yt) g = Raise ZeroDivisionError.
Proof.
  intros Hrect Hlen Hiter.
  destruct (init_args_total c features labels (Py.ncols features) Hrect) as [s0 Hs0].
  pose proof (init_shapes c features labels s0 Hlen Hs0) as Hshape.
  unfold fit. rewrite Hs0. cbn [bind].
  destruct (max_iter c) as [|k]; [lia | ].
  cbn [seq for_each].
  destruct (fit_pass_step (fun s => shapes_ok s = true) (fun s Hs => Hs) shapes_update
              (Some []) (Some yt) {| model := s0; gen := g; calls := [] |} [] 0%nat Hshape)
    as (w' & Hpass & _).
  rewrite Hpass. reflexivity.
Qed.

(** C5 (amended). On well-formed input and with [max_iter >= 1]: with an
    evaluation set that is not empty when one is supplied, [fit] returns
    after exactly [max_iter] passes, each examining the indices [0 .. m-1]
    in ascending order; the result is empty without an evaluation set, and
    otherwise holds for each pass the exact fraction of evaluation samples
    that [predict], in the state that pass ended in, labels correctly.  With
    an empty evaluation set, whatever the labels supplied with it, [fit]
    raises [ZeroDivisionError] and returns nothing. *)
Theorem fit_runs_every_pass {G : Type} {RS : RandomSource G} {EX : Exp}
  (c : config) (features : list (list Q)) (labels : list Q)
  (X_test : option (list (list Q))) (y_test : option (list Q)) (g : G) :
  (forall row : list Q, In row features -> length row = Py.ncols features) ->
  length labels = length features ->
  (0 < max_iter c)%nat ->
  (eval_ok (Py.ncols features) X_test y_test ->
   exists (s0 : svm) (accs : list Q) (w : world G),
     init_args c features labels = Ok s0 /\
     fit c features labels X_test y_test g = Ok (accs, w) /\
     passes_of [] (calls w)
     = map (fun s => (seq 0 (length features), s)) (pass_states (calls w)) /\
     length (pass_states (calls w)) = max_iter c /\
     last (pass_states (calls w)) s0 = model w /\
     (X_test = None \/ y_test = None -> accs = []) /\
     (forall (xt : list (list Q)) (yt : list Q),
        X_test = Some xt -> y_test = Some yt ->
        length accs = max_iter c /\
        accs = map (fun s => accuracy s xt yt) (pass_states (calls w)))) /\
  (forall yt : list Q, X_test = Some [] -> y_test = Some yt ->
     fit c features labels X_test y_test g = Raise ZeroDivisionError).
Proof.
  intros Hrect Hlen Hiter. split.
  - intros Heval.
    destruct (fit_run (fun s => shapes_ok s = true) (fun s Hs => Hs) shapes_update
                X_test y_test c features labels g Hrect Hiter Heval)
      as (s0 & accs & w & Hs0 & Hrun & _ & _ & Hpo & Hlenp & Haccs & _ & Hlast).
    { intros s0 Hs0. apply (init_shapes c features labels s0); assumption. }
    exists s0, accs, w.
    split; [exact Hs0 | split; [exact Hrun | split; [exact Hpo | ]]].
    split; [exact Hlenp | split; [exact Hlast | split]].
    + intros Hnone. rewrite Haccs. unfold trace_of.
      destruct Hnone as [-> | ->]; [reflexivity | destruct X_test; reflexivity].
    + intros xt yt -> ->. rewrite Haccs. unfold trace_of.
      rewrite length_map. auto.
  - intros yt -> ->.
    apply fit_stops_on_empty_evaluation_set; assumption.
Qed.

Lemma fit_runs_every_pass_witness :
  (exists (s0 : svm) (accs : list Q) (w : world unit),
     init_args cfg_linear two_points two_labels = Ok s0 /\
     fit cfg_linear two_points two_labels (Some four_queries) (Some four_labels) tt
     = Ok (accs, w) /\
     passes_of [] (calls w)
     = map (fun s => (seq 0 (length two_points), s)) (pass_states (calls w)) /\
     length (pass_states (calls w)) = max_iter cfg_linear /\
     last (pass_states (calls w)) s0 = model w /\
     (Some four_queries = None \/ Some four_labels = None -> accs = []) /\
     (forall (xt : list (list Q)) (yt : list Q),
        Some four_queries = Some xt -> Some four_labels = Some yt ->
        length accs = max_iter cfg_linear /\
        accs = map (fun s => accuracy s xt yt) (pass_states (calls w)))) /\
  fit cfg_linear two_points two_labels (Some []) (Some four_labels) tt
  = Raise ZeroDivisionError.
Proof.
  assert (Hrect : forall row : list Q,
            In row two_points -> length row = Py.ncols two_points).
  { intros row [<- | [<- | []]]; reflexivity. }
  assert (Hiter : (0 < max_iter cfg_linear)%nat) by by_computation.
  split.
  - apply (proj1 (fit_runs_every_pass cfg_linear two_points two_labels
                    (Some four_queries) (Some four_labels) tt
                    Hrect eq_refl Hiter)).
    split; [discriminate | split; [by_computation | ]].
    intros x [<- | [<- | [<- | [<- | []]]]]; reflexivity.
  - apply (proj2 (fit_runs_every_pass cfg_linear two_points two_labels
                    (Some []) (Some four_labels) tt Hrect eq_refl Hiter)
             four_labels eq_refl eq_refl).
Defined.

(** The run of the witness, evaluated: two passes over the indices 0, 1 and
    an accuracy of 3/4 after each. *)
Lemma fit_two_points_trace :
  exists w : world unit,
    fit cfg_linear two_points two_labels (Some four_queries) (Some four_labels) tt
    = Ok ([3 # 4; 3 # 4], w) /\
    examined (calls w) = [0; 1; 0; 1]%nat /\
    attempts (calls w) = [(0, 1)]%nat.
Proof.
  eexists. split; [vm_compute; reflexivity | split; reflexivity].
Qed.

(** * Further properties of the code *)

(** ** Support vectors *)

Lemma filter_seq_sorted (p : nat -> bool) (len : nat) :
  forall start : nat, StronglySorted lt (filter p (seq start len)).
Proof.
  induction len as [|len IH]; intros start; simpl; [constructor | ].
  destruct (p start); [ | apply IH ].
  constructor; [apply IH | ].
  apply Forall_forall. intros j Hj. apply filter_In in Hj. destruct Hj as [Hj _].
  apply in_seq in Hj. lia.
Qed.

(** The mask selection and the index selection pick the same rows. *)
Lemma mask_rows (p : Q -> bool) (xs : list (list Q)) (a : list Q) :
  length a = length xs ->
  map fst (filter (fun q => p (snd q)) (combine xs a))
  = map (fun i => nth i xs []) (filter (fun i => p (nth i a 0)) (seq 0 (length a))).
Proof.
  revert a. induction xs as [|x xs IH]; intros [|v a] Hl; simpl in Hl;
    try discriminate; [reflexivity | ].
  assert (Htail :
    map (fun i => nth i (x :: xs) [])
        (filter (fun i => p (nth i (v :: a) 0)) (seq 1 (length a)))
    = map (fun i => nth i xs []) (filter (fun i => p (nth i a 0)) (seq 0 (length a)))).
  { rewrite <- seq_shift, filter_map_swap, map_map. reflexivity. }
  cbn [combine length seq filter snd].
  change (nth 0 (v :: a) 0) with v.
  destruct (p v); cbn [map fst]; rewrite Htail, IH by lia; reflexivity.
Qed.

(** [support_vector_indices_] lists, in ascending order and without
    repetition, exactly the positions of [alpha] whose entry exceeds [1e-6]. *)
Theorem support_vector_indices_exact (s : svm) :
  StronglySorted lt (support_vector_indices_ s) /\
  NoDup (support_vector_indices_ s) /\
  (forall i : nat,
     In i (support_vector_indices_ s) <->
     (i < length (alpha s))%nat /\ eps < alpha_at s i).
Proof.
  unfold support_vector_indices_, where_. split; [ | split].
  - apply filter_seq_sorted.
  - apply NoDup_filter, seq_NoDup.
  - intros i. rewrite filter_In, in_seq, Qltb_lt. unfold alpha_at. split.
    + intros [Hi Hlt]. split; [lia | exact Hlt].
    + intros [Hi Hlt]. split; [lia | exact Hlt].
Qed.

(** [support_vectors_] returns the training rows at
    [support_vector_indices_], in that order, when [alpha] has one entry per
    row, and raises [IndexError] otherwise. *)
Theorem support_vectors_rows (s : svm) :
  (length (alpha s) = length (X s) ->
   support_vectors_ s
   = Ok (map (fun i => nth i (X s) []) (support_vector_indices_ s))) /\
  (length (alpha s) <> length (X s) -> support_vectors_ s = Raise IndexError).
Proof.
  unfold support_vectors_, support_vector_indices_, where_. split; intros Hl.
  - destruct (Nat.eqb_spec (length (alpha s)) (length (X s))); [ | contradiction ].
    f_equal. apply (mask_rows (fun a => Py.Qltb eps a)). exact Hl.
  - destruct (Nat.eqb_spec (length (alpha s)) (length (X s))); [contradiction | reflexivity].
Qed.

Lemma support_vectors_rows_witness :
  support_vectors_ two_points_trained
  = Ok (map (fun i => nth i (X two_points_trained) [])
            (support_vector_indices_ two_points_trained)) /\
  support_vectors_ (set_alpha two_points_trained [1]) = Raise IndexError.
Proof.
  split.
  - apply (proj1 (support_vectors_rows two_points_trained)). reflexivity.
  - apply (proj2 (support_vectors_rows (set_alpha two_points_trained [1]))).
    discriminate.
Defined.

(** ** [clip_alpha] *)



(** ** [kernel] *)

(** [kernel] does not depend on the order of its arguments, whatever the
    configured name, and the linear and polynomial kernels raise
    [ValueError] exactly when the two vectors differ in length. *)
Theorem kernel_symmetric_and_shapes {EX : Exp} (name : string) (x1 x2 : list Q) :
  kernel name x1 x2 = kernel name x2 x1 /\
  (name = "linear"%string \/ name = "poly"%string ->
   (kernel name x1 x2 = Raise ValueError <-> length x1 <> length x2) /\
   (length x1 = length x2 -> exists v : Q, kernel name x1 x2 = Ok v)).
Proof.
  split; [apply kernel_comm | ].
  intros Hname. split.
  - unfold kernel, Py.dot.
    destruct Hname as [-> | ->]; simpl;
      destruct (Nat.eqb_spec (length x1) (length x2)); simpl;
      split; intros; try congruence; try discriminate; contradiction.
  - intros Hl. apply kernel_total. exact Hl.
Qed.

Lemma kernel_symmetric_and_shapes_witness :
  kernel "poly" [1; 2] [3; 4] = kernel "poly" [3; 4] [1; 2] /\
  (kernel "poly" [1; 2] [3] = Raise ValueError <-> length [1; 2] <> length [3]) /\
  (length [1; 2] = length [3; 4] -> exists v : Q, kernel "poly" [1; 2] [3; 4] = Ok v).
Proof.
  split; [apply (kernel_symmetric_and_shapes "poly" [1; 2] [3; 4]) | split].
  - apply (kernel_symmetric_and_shapes "poly" [1; 2] [3]). right. reflexivity.
  - apply (kernel_symmetric_and_shapes "poly" [1; 2] [3; 4]). right. reflexivity.
Defined.

(** ** [decision_function] on several query points *)

Lemma decision_rows_acc {EX : Exp} (s : svm) (rows : list (list Q)) :
  forall acc ds : list Q,
  for_each (fun decisions data_point =>
         r <- for_each (fun r i =>
                a <- Py.getitem (alpha s) i ;;
                y <- Py.getitem (Y s) i ;;
                x <- Py.getitem (X s) i ;;
                k <- kernel (_kernel (cfg s)) data_point x ;;
                Ok (r + a * y * k))
              (seq 0 (m s)) (b s) ;;
         Ok (decisions ++ [r]))
       rows acc = Ok ds <->
  exists tl : list Q,
    ds = acc ++ tl /\
    Forall2 (fun row d => decision_function s (Arr1 row) = Ok [d]) rows tl.
Proof.
  induction rows as [|row rows IH]; intros acc ds; cbn [for_each].
  - split.
    + intros Hrun. inversion Hrun; subst. exists []. rewrite app_nil_r.
      split; [reflexivity | constructor].
    + intros (tl & -> & Hall). inversion Hall; subst. rewrite app_nil_r. reflexivity.
  - split.
    + intros Hrun. inv_bind Hrun. inv_bind Hv. inversion Hv; subst v. clear Hv.
      apply IH in Hrun. destruct Hrun as (tl & -> & Hall).
      exists (v0 :: tl). split; [rewrite <- app_assoc; reflexivity | ].
      constructor; [ | exact Hall ].
      unfold decision_function. rewrite Hv0. reflexivity.
    + intros (tl & -> & Hall). inversion Hall as [|row' d rows' tl' Hd Hrest]; subst.
      unfold decision_function in Hd. inv_bind Hd. inversion Hd; subst v.
      rewrite Hv. cbn [bind]. apply IH. exists tl'.
      split; [rewrite <- app_assoc; reflexivity | exact Hrest].
Qed.

(** Given a 2-D array, [decision_function] returns exactly one value per
    row, the one it returns for that row alone, and raises as soon as it
    would raise on one of the rows. *)
Theorem decision_function_rows {EX : Exp} (s : svm) (rows : list (list Q))
  (ds : list Q) :
  decision_function s (Arr2 rows) = Ok ds <->
  Forall2 (fun row d => decision_function s (Arr1 row) = Ok [d]) rows ds.
Proof.
  unfold decision_function at 1. rewrite decision_rows_acc. split.
  - intros (tl & -> & Hall). exact Hall.
  - intros Hall. exists ds. split; [reflexivity | exact Hall].
Qed.

(** ** The cached matrix and the live kernel *)

Lemma init_kernel_matrix {EX : Exp} (c : config) (features : list (list Q))
  (labels : list Q) (s0 : svm) :
  init_args c features labels = Ok s0 -> kernel_matrix s0.
Proof.
  intros Hinit.
  pose proof (init_args_inv _ _ _ _ Hinit)
    as (Hcfg & Hm & HX & HY & Ha & Hb & HE & Hn & Hrows & HK).
  destruct (gram_correct _ _ _ eq_refl _ HK) as (_ & Hsym & Hup).
  intros i j Hi Hj. rewrite Hcfg, HX. unfold K_at. rewrite Hm in Hi, Hj.
  destruct (Nat.le_gt_cases i j) as [Hij | Hij].
  - apply Hup; assumption.
  - rewrite kernel_comm, Hsym by assumption. apply Hup; lia.
Qed.

Lemma kernel_matrix_same_data {EX : Exp} (s s' : svm) :
  same_data s s' -> kernel_matrix s -> kernel_matrix s'.
Proof.
  intros (Hcfg & Hm & _ & HX & _ & HK) Hker i j Hi Hj.
  unfold K_at. rewrite Hcfg, HX, HK. rewrite Hm in Hi, Hj. apply Hker; assumption.
Qed.

(** [fit] never changes what [init_args] stored: the configuration, the
    training set and the Gram matrix of the returned model are those of the
    initial state, so the matrix still holds the kernel of every pair. *)
Theorem fit_keeps_training_data {G : Type} {RS : RandomSource G} {EX : Exp}
  (c : config) (features : list (list Q)) (labels : list Q)
  (X_test : option (list (list Q))) (y_test : option (list Q)) (g : G)
  (accs : list Q) (w : world G) :
  length labels = length features ->
  fit c features labels X_test y_test g = Ok (accs, w) ->
  cfg (model w) = c /\ m (model w) = length features /\
  X (model w) = features /\ Y (model w) = labels /\
  length (alpha (model w)) = length features /\
  (forall i j : nat, (i < length features)%nat -> (j < length features)%nat ->
     K_at (model w) i j = K_at (model w) j i /\
     kernel (_kernel c) (nth i features []) (nth j features [])
     = Ok (K_at (model w) i j)).
Proof.
  intros Hlen Hrun.
  destruct (fit_inv (fun s => shapes_ok s = true) (fun s Hs => Hs) shapes_update
              X_test y_test c features labels g accs w)
    as (Hs & _ & s0 & Hs0 & Hsame).
  { intros s1 Hs1. apply (init_shapes c features labels s1); assumption. }
  { exact Hrun. }
  pose proof (init_args_inv _ _ _ _ Hs0) as (Hcfg & Hm & HX & HY & _).
  pose proof (kernel_matrix_same_data s0 (model w) Hsame
                (init_kernel_matrix c features labels s0 Hs0)) as Hker.
  pose proof (init_symmetric c features labels s0 Hs0) as Hsym.
  destruct Hsame as (Hcfg' & Hm' & _ & HX' & HY' & HK').
  apply shapes_ok_iff in Hs. destruct Hs as (_ & _ & Ha & _).
  repeat split; try congruence.
  - unfold K_at. rewrite HK'. apply Hsym; congruence.
  - specialize (Hker i j). rewrite Hcfg', Hcfg, HX', HX in Hker.
    apply Hker; congruence.
Qed.

Lemma fit_keeps_training_data_witness :
  exists (accs : list Q) (w : world unit),
    fit cfg_linear two_points two_labels None None tt = Ok (accs, w) /\
    X (model w) = two_points /\ Y (model w) = two_labels /\
    kernel "linear" (nth 1 two_points []) (nth 0 two_points [])
    = Ok (K_at (model w) 1 0).
Proof.
  assert (Hrun : exists accs w,
            fit cfg_linear two_points two_labels None None tt = Ok (accs, w))
    by (eexists _, _; vm_compute; reflexivity).
  destruct Hrun as (accs & w & Hrun). exists accs, w.
  destruct (fit_keeps_training_data cfg_linear two_points two_labels None None tt
              accs w eq_refl Hrun) as (_ & _ & HX & HY & _ & Hker).
  split; [exact Hrun | split; [exact HX | split; [exact HY | ]]].
  apply (Hker 1%nat 0%nat); by_computation.
Defined.

(** ** Training under an unrecognised kernel name *)

Lemma unknown_kernel_update_fails {EX : Exp} (s : svm) (i1 i2 : nat) (r : bool)
  (s' : svm) :
  _kernel (cfg s) <> "linear"%string -> _kernel (cfg s) <> "poly"%string ->
  _kernel (cfg s) <> "rbf"%string ->
  shapes_ok s = true -> kernel_matrix s ->
  (i1 < m s)%nat -> (i2 < m s)%nat ->
  update_alpha_pair s i1 i2 = Ok (r, s') -> r = false /\ s' = s.
Proof.
  intros Hl Hp Hr Hs Hker H1 H2 Hrun.
  assert (Hz : forall i j, (i < m s)%nat -> (j < m s)%nat -> K_at s i j = 0).
  { intros i j Hi Hj. specialize (Hker i j Hi Hj).
    rewrite kernel_unknown in Hker by assumption. congruence. }
  destruct (update_alpha_pair_cases s i1 i2 Hs H1 H2)
    as [[Hfail _] | (_ & Hpos & _)].
  - rewrite Hfail in Hrun. inversion Hrun; auto.
  - exfalso. unfold eta in Hpos. rewrite !Hz in Hpos by assumption. lra.
Qed.

(** With a kernel name other than linear, poly and rbf, training changes
    nothing: every pair update is rejected, so the model [fit] returns is the
    state built by [init_args], with all multipliers and the bias zero, and
    [predict] answers [-1] for every input. *)
Theorem unknown_kernel_training_is_noop {G : Type} {RS : RandomSource G} {EX : Exp}
  (c : config) (features : list (list Q)) (labels : list Q)
  (X_test : option (list (list Q))) (y_test : option (list Q)) (g : G)
  (accs : list Q) (w : world G) :
  _kernel c <> "linear"%string -> _kernel c <> "poly"%string ->
  _kernel c <> "rbf"%string ->
  length labels = length features ->
  fit c features labels X_test y_test g = Ok (accs, w) ->
  init_args c features labels = Ok (model w) /\
  (forall i : nat, alpha_at (model w) i = 0) /\
  b (model w) = 0 /\
  (forall x : list Q, predict (model w) x = Ok (-1)%Z).
Proof.
  intros Hl Hp Hr Hlen Hrun.
  destruct (fit_inv (fun s => init_args c features labels = Ok s)) with
    (X_test := X_test) (y_test := y_test) (c := c) (features := features)
    (labels := labels) (g := g) (accs := accs) (w := w)
    as (Hinit & _ & _).
  - intros s Hs. apply (init_shapes c features labels s); assumption.
  - intros s i1 i2 r s' Hs H1 H2 Hupd.
    pose proof (init_args_inv _ _ _ _ Hs) as (Hcfg & _).
    destruct (unknown_kernel_update_fails s i1 i2 r s') as [_ ->]; auto;
      try (rewrite Hcfg; assumption).
    + apply (init_shapes c features labels s); assumption.
    + apply (init_kernel_matrix c features labels s Hs).
  - auto.
  - exact Hrun.
  - pose proof (init_args_inv _ _ _ _ Hinit) as (Hcfg & _ & _ & _ & _ & Hb & _).
    pose proof (init_shapes c features labels _ Hlen Hinit) as Hs.
    split; [exact Hinit | split; [ | split; [exact Hb | ]]].
    + intros i. apply (init_alpha_zero c features labels _ Hinit).
    + intros x.
      destruct (decision_loop_returns (model w) x (m (model w)) Hs)
        with (start := 0%nat) (r0 := b (model w)) as (r & Hloop); [ | lia | ].
      { intros j _. rewrite Hcfg, kernel_unknown by assumption. eauto. }
      destruct (decision_loop_inv (model w) x _ 0%nat _ r Hloop) as (kv & _ & _ & Hrv).
      unfold predict. rewrite Hloop. cbn [bind].
      assert (Hr0 : r == 0).
      { rewrite Hrv, Hb. rewrite sum_zero_terms; [ring | ].
        intros j _. rewrite (init_alpha_zero c features labels _ Hinit). ring. }
      destruct (Py.Qltb 0 r) eqn:Hlt; [ | reflexivity ].
      apply Qltb_lt in Hlt. lra.
Qed.

Lemma unknown_kernel_training_is_noop_witness :
  exists (accs : list Q) (w : world unit),
    fit cfg_unknown two_points two_labels None None tt = Ok (accs, w) /\
    init_args cfg_unknown two_points two_labels = Ok (model w) /\
    alpha_at (model w) 0 = 0 /\ b (model w) = 0 /\
    predict (model w) [5; 5] = Ok (-1)%Z.
Proof.
  assert (Hrun : exists accs w,
            fit cfg_unknown two_points two_labels None None tt = Ok (accs, w))
    by (eexists _, _; vm_compute; reflexivity).
  destruct Hrun as (accs & w & Hrun). exists accs, w.
  destruct (unknown_kernel_training_is_noop cfg_unknown two_points two_labels
              None None tt accs w) as (Hinit & Ha & Hb & Hp);
    try discriminate; try by_computation.
  split; [exact Hrun | split; [exact Hinit | split; [apply Ha | split; [exact Hb | apply Hp]]]].
Defined.

(** ** What one call of [examine_example] does to the model *)

Section Outcome.

Context {G : Type} `{RandomSource G}.

(** The fallback loop stops at the first accepted pair; rejected pairs leave
    the model as it was. *)
Lemma scan_outcome (i1 : nat) (js : list nat) :
  forall w : world G,
  shapes_ok (model w) = true -> (i1 < m (model w))%nat ->
  (forall j, In j js -> (j < m (model w))%nat) ->
  exists (r : bool) (w' : world G),
    scan i1 js w = Ok (r, w') /\
    ((r = false /\ model w' = model w /\
      calls w' = calls w
                 ++ map (Attempt i1) (filter (fun j => negb (j =? i1)%nat) js) /\
      forall j, In j js -> j <> i1 ->
        update_alpha_pair (model w) i1 j = Ok (false, model w))
     \/
     (r = true /\
      exists (pre : list nat) (j2 : nat) (post : list nat),
        filter (fun j => negb (j =? i1)%nat) js = pre ++ j2 :: post /\
        calls w' = calls w ++ map (Attempt i1) (pre ++ [j2]) /\
        update_alpha_pair (model w) i1 j2 = Ok (true, model w'))).
Proof.
  induction js as [|j js IH]; intros w Hs H1 Hjs; cbn [scan filter].
  - exists false, w. split; [reflexivity | left].
    simpl. rewrite app_nil_r. repeat split. intros j [].
  - assert (Hjs' : forall j0, In j0 js -> (j0 < m (model w))%nat)
      by (intros j0 Hj0; apply Hjs; right; exact Hj0).
    destruct (Nat.eqb_spec j i1) as [Heq | Hne]; cbn [negb].
    + destruct (IH w Hs H1 Hjs') as (r & w' & Hrun & Hcase).
      exists r, w'. split; [exact Hrun | ].
      destruct Hcase as [(-> & Hm & Hc & Hall) | Hcase]; [left | right; exact Hcase].
      repeat split; auto. intros j0 [-> | Hj0] Hne0; [congruence | auto].
    + assert (Hj : (j < m (model w))%nat) by (apply Hjs; left; reflexivity).
      unfold attempt.
      destruct (update_alpha_pair_cases (model w) i1 j Hs H1 Hj)
        as [[Hfail _] | (_ & _ & e & Hok & _)].
      * rewrite Hfail. cbn [bind fst snd].
        destruct (IH (set_model (log w (Attempt i1 j)) (model w)))
          as (r & w' & Hrun & Hcase); try assumption.
        exists r, w'. split; [exact Hrun | ].
        destruct Hcase as [(-> & Hm & Hc & Hall) | (-> & pre & j2 & post & Hf & Hc & Hu)].
        -- left. split; [reflexivity | split; [exact Hm | split]].
           ++ rewrite Hc. simpl. rewrite <- app_assoc. reflexivity.
           ++ intros j0 [-> | Hj0] Hne0; [exact Hfail | apply (Hall j0 Hj0 Hne0)].
        -- right. split; [reflexivity | ].
           exists (j :: pre), j2, post. split; [rewrite Hf; reflexivity | split].
           ++ rewrite Hc. simpl. rewrite <- app_assoc. reflexivity.
           ++ exact Hu.
      * rewrite Hok. cbn [bind fst snd].
        eexists true, _. split; [reflexivity | right]. split; [reflexivity | ].
        exists [], j, (filter (fun j0 => negb (j0 =? i1)%nat) js).
        split; [reflexivity | split; [reflexivity | exact Hok]].
Qed.


Lemma examine_example_cases (w : world G) (i1 : nat) :
  shapes_ok (model w) = true -> (i1 < m (model w))%nat ->
  exists (g : Q) (r : bool) (w' : world G),
    function_g (model w) i1 = Ok g /\
    examine_example w i1 = Ok (r, w') /\
    (r = false -> model w' = model w) /\
    (r = true ->
     exists (j2 : nat) (pre : list event),
       (j2 < m (model w))%nat /\ j2 <> i1 /\
       update_alpha_pair (model w) i1 j2 = Ok (true, model w') /\
       calls w' = calls w ++ Examine i1 (model w) :: pre ++ [Attempt i1 j2] /\
       only_attempts i1 pre) /\
    (r = false ->
     violation (C (cfg (model w))) (alpha_at (model w) i1)
       ((g - Y_at (model w) i1) * Y_at (model w) i1) ->
     forall j : nat, (j < m (model w))%nat -> j <> i1 ->
       In (Attempt i1 j) (calls w') /\
       update_alpha_pair (model w) i1 j = Ok (false, model w)).
Proof.
  intros Hs H1.
  pose proof (proj1 (shapes_ok_iff _) Hs) as (HX & HY & Ha & HE & HK & Hrows).
  eexists. unfold examine_example.
  set (wl := log w (Examine i1 (model w))).
  assert (Hwl : calls wl = calls w ++ [Examine i1 (model w)]) by reflexivity.
  change (model wl) with (model w).
  rewrite function_g_run by assumption. cbn [bind].
  rewrite (getitem_nth (Y (model w)) i1 0), (getitem_nth (alpha (model w)) i1 0) by lia.
  cbn [bind]. fold (Y_at (model w) i1) (alpha_at (model w) i1).
  change (filter (fun k : nat => negb (k =? i1)%nat)
            (where_ (fun a : Q => Py.Qltb eps a && Py.Qltb a (C (cfg (model w)) - eps))
                    (alpha (model w))))
    with (non_bound (model w) i1).
  match goal with |- context [kkt_violated ?c ?a ?rad] =>
    destruct (kkt_violated c a rad) eqn:Hk end.
  2: { exists false, wl. split; [reflexivity | split; [reflexivity | ]].
       split; [reflexivity | split; [discriminate | ]].
       intros _ Hv. apply kkt_violated_iff in Hv. congruence. }
  assert (Hscan : forall (w1 : world G) (pre : list event),
    model w1 = model w ->
    calls w1 = calls w ++ Examine i1 (model w) :: pre -> only_attempts i1 pre ->
    exists (r : bool) (w' : world G),
      scan i1 (fst (np_random_shuffle (gen w1) (seq 0 (m (model w1)))))
           (set_gen w1 (snd (np_random_shuffle (gen w1) (seq 0 (m (model w1))))))
      = Ok (r, w') /\
      (r = false -> model w' = model w) /\
      (r = true ->
       exists (j2 : nat) (pre' : list event),
         (j2 < m (model w))%nat /\ j2 <> i1 /\
         update_alpha_pair (model w) i1 j2 = Ok (true, model w') /\
         calls w' = calls w ++ Examine i1 (model w) :: pre' ++ [Attempt i1 j2] /\
         only_attempts i1 pre') /\
      (r = false ->
       forall j : nat, (j < m (model w))%nat -> j <> i1 ->
         In (Attempt i1 j) (calls w') /\
         update_alpha_pair (model w) i1 j = Ok (false, model w))).
  { intros w1 pre Hm1 Hcalls1 Hpre.
    set (js := fst (np_random_shuffle (gen w1) (seq 0 (m (model w1))))).
    assert (Hperm : forall j, In j js <-> (j < m (model w))%nat).
    { intros j. unfold js. rewrite Hm1. split; intros Hj.
      - apply (Permutation_in j (Permutation_sym (np_random_shuffle_perm _ _))) in Hj.
        apply in_seq in Hj. lia.
      - apply (Permutation_in j (np_random_shuffle_perm _ _)). apply in_seq. lia. }
    destruct (scan_outcome i1 js
                (set_gen w1 (snd (np_random_shuffle (gen w1) (seq 0 (m (model w1)))))))
      as (r & w' & Hrun & Hcase).
    - simpl. rewrite Hm1. exact Hs.
    - simpl. rewrite Hm1. exact H1.
    - intros j Hj. simpl. rewrite Hm1. apply Hperm. exact Hj.
    - exists r, w'. split; [exact Hrun | ]. simpl in Hcase. rewrite Hm1 in Hcase.
      destruct Hcase as [(-> & Hm & Hc & Hall) | (-> & p & j2 & post & Hf & Hc & Hu)].
      + split; [intros _; exact Hm | split; [discriminate | ]].
        intros _ j Hj Hne. split.
        * rewrite Hc. apply in_or_app. right.
          apply in_map, filter_In. split; [apply Hperm; exact Hj | ].
          apply negb_true_iff, Nat.eqb_neq. exact Hne.
        * apply Hall; [apply Hperm; exact Hj | exact Hne].
      + split; [discriminate | split; [ | discriminate]].
        intros _. exists j2, (pre ++ map (Attempt i1) p).
        assert (Hin : In j2 (filter (fun j => negb (j =? i1)%nat) js))
          by (rewrite Hf; apply in_or_app; right; left; reflexivity).
        apply filter_In in Hin. destruct Hin as [Hin Hneq].
        apply negb_true_iff, Nat.eqb_neq in Hneq.
        split; [apply Hperm; exact Hin | split; [exact Hneq | split; [exact Hu | split]]].
        * rewrite Hc. simpl. rewrite Hcalls1, map_app.
          rewrite <- ?app_assoc. simpl. rewrite <- ?app_assoc. reflexivity.
        * apply Forall_app. split; [exact Hpre | ].
          apply Forall_forall. intros ev Hev. apply in_map_iff in Hev.
          destruct Hev as (j & <- & _). eauto. }
  destruct (non_bound (model w) i1) as [|j0 js0] eqn:Hjs.
  - cbn [bind fst snd].
    destruct (Hscan wl []) as (r & w' & Hrun & Hout); auto; [constructor | ].
    exists r, w'. split; [reflexivity | split; [exact Hrun | ]].
    destruct Hout as (Hf & Ht & Hcov). auto.
  - destruct (tier1_select (model w) i1
                (b (model w)
                 + Py.sum (map (fun j => alpha_at (model w) j * Y_at (model w) j
                                         * K_at (model w) i1 j)
                               (seq 0 (m (model w))))
                 - Y_at (model w) i1)
                (j0 :: js0) Hs)
      as (k & j2 & Htake & Harg & Hget & Hin & _).
    { discriminate. }
    { intros j Hj. rewrite Hjs. exact Hj. }
    rewrite Htake. cbn [bind]. rewrite Harg. cbn [bind]. rewrite Hget. cbn [bind].
    rewrite <- Hjs in Hin. apply non_bound_In in Hin.
    destruct Hin as (Hj2a & Hj2ne & _).
    assert (Hj2 : (j2 < m (model w))%nat) by lia.
    unfold attempt. change (model wl) with (model w).
    destruct (update_alpha_pair_cases (model w) i1 j2 Hs H1 Hj2)
      as [[Hfail _] | (_ & _ & e & Hok & _)].
    + rewrite Hfail. cbn [bind fst snd].
      destruct (Hscan (set_model (log wl (Attempt i1 j2)) (model w)) [Attempt i1 j2])
        as (r & w' & Hrun & Hout).
      * reflexivity.
      * simpl. rewrite <- app_assoc. reflexivity.
      * constructor; [eauto | constructor].
      * exists r, w'. split; [reflexivity | split; [exact Hrun | ]].
        destruct Hout as (Hf & Ht & Hcov). auto.
    + rewrite Hok. cbn [bind fst snd].
      eexists true, _. split; [reflexivity | split; [reflexivity | ]].
      split; [discriminate | split; [ | discriminate]].
      intros _. exists j2, []. simpl.
      split; [exact Hj2 | split; [exact Hj2ne | split; [exact Hok | split]]].
      * rewrite <- app_assoc. reflexivity.
      * constructor.
Qed.


(** A call of [examine_example] changes the model by at most one committed
    pair update: when it returns [False] the model is the one it was entered
    with; when it returns [True] the model is the result of the one accepted
    [update_alpha_pair(i1, j2)], the last pair it tried, on the model it was
    entered with. *)
Theorem examine_example_one_update (w : world G) (i1 : nat) :
  shapes_ok (model w) = true -> (i1 < m (model w))%nat ->
  exists (r : bool) (w' : world G),
    examine_example w i1 = Ok (r, w') /\
    (r = false -> model w' = model w) /\
    (r = true ->
     exists (j2 : nat) (pre : list event),
       (j2 < m (model w))%nat /\ j2 <> i1 /\
       update_alpha_pair (model w) i1 j2 = Ok (true, model w') /\
       calls w' = calls w ++ Examine i1 (model w) :: pre ++ [Attempt i1 j2] /\
       only_attempts i1 pre).
Proof.
  intros Hs H1.
  destruct (examine_example_cases w i1 Hs H1) as (g & r & w' & _ & Hrun & Hf & Ht & _).
  exists r, w'. auto.
Qed.


End Outcome.

Lemma examine_example_one_update_witness :
  exists (r : bool) (w' : world unit),
    examine_example {| model := two_points_init; gen := tt; calls := [] |} 0
    = Ok (r, w') /\
    (r = false -> model w' = two_points_init) /\
    (r = true ->
     exists (j2 : nat) (pre : list event),
       (j2 < 2)%nat /\ j2 <> 0%nat /\
       update_alpha_pair two_points_init 0 j2 = Ok (true, model w') /\
       calls w' = Examine 0 two_points_init :: pre ++ [Attempt 0 j2] /\
       only_attempts 0 pre).
Proof.
  apply (examine_example_one_update
           {| model := two_points_init; gen := tt; calls := [] |} 0); by_computation.
Defined.


(** ** Indices out of range *)

Lemma getitem_out_of_range {A : Type} (l : list A) (i : nat) :
  (length l <= i)%nat -> Py.getitem l i = Raise IndexError.
Proof.
  intros Hi. unfold Py.getitem.
  rewrite (proj2 (nth_error_None l i) Hi). reflexivity.
Qed.

(** The equality test of [update_alpha_pair] comes before any indexing:
    equal indices give [False] even out of range, while for distinct
    indices one of which is not a position of [alpha] the call raises
    [IndexError]. *)
Theorem update_alpha_pair_index_errors (s : svm) (i1 i2 : nat) :
  (i1 = i2 -> update_alpha_pair s i1 i2 = Ok (false, s)) /\
  (i1 <> i2 -> (length (alpha s) <= i1)%nat \/ (length (alpha s) <= i2)%nat ->
   update_alpha_pair s i1 i2 = Raise IndexError).
Proof.
  split.
  - intros ->. apply update_alpha_pair_same.
  - intros Hne Hout. unfold update_alpha_pair.
    destruct (Nat.eqb_spec i1 i2); [contradiction | ].
    destruct (Nat.le_gt_cases (length (alpha s)) i1) as [H1 | H1].
    + rewrite (getitem_out_of_range _ _ H1). reflexivity.
    + rewrite (getitem_nth (alpha s) i1 0) by exact H1. cbn [bind].
      destruct Hout as [Ho | Ho]; [lia | ].
      rewrite (getitem_out_of_range _ _ Ho). reflexivity.
Qed.

Lemma update_alpha_pair_index_errors_witness :
  update_alpha_pair two_points_init 7 7 = Ok (false, two_points_init) /\
  update_alpha_pair two_points_init 0 7 = Raise IndexError.
Proof.
  split.
  - apply (update_alpha_pair_index_errors two_points_init 7 7). reflexivity.
  - apply (update_alpha_pair_index_errors two_points_init 0 7); [discriminate | ].
    right. vm_compute; lia.
Defined.

(** ** Queries of the wrong dimension *)

(** With the linear or the polynomial kernel and at least one training
    point, a query whose length differs from the training dimension makes
    [predict] and [decision_function] raise [ValueError], whatever the
    multipliers are. *)
Theorem predict_dimension_mismatch {EX : Exp} (s : svm) (x : list Q) :
  _kernel (cfg s) = "linear"%string \/ _kernel (cfg s) = "poly"%string ->
  shapes_ok s = true -> rows_ok s -> (0 < m s)%nat -> length x <> n s ->
  predict s x = Raise ValueError /\
  decision_function s (Arr1 x) = Raise ValueError.
Proof.
  intros Hname Hs Hrows Hm Hx.
  pose proof (proj1 (shapes_ok_iff s) Hs) as (HX & HY & Ha & _).
  assert (Hker : kernel (_kernel (cfg s)) x (nth 0 (X s) []) = Raise ValueError).
  { assert (Hl : length x <> length (nth 0 (X s) [])).
    { rewrite (Hrows (nth 0 (X s) [])) by (apply nth_In; lia). exact Hx. }
    unfold kernel, Py.dot.
    destruct Hname as [-> | ->]; simpl;
      destruct (Nat.eqb_spec (length x) (length (nth 0 (X s) [])));
      try contradiction; reflexivity. }
  assert (Hloop :
    for_each (fun r i =>
        a <- Py.getitem (alpha s) i ;;
        y <- Py.getitem (Y s) i ;;
        xi <- Py.getitem (X s) i ;;
        k <- kernel (_kernel (cfg s)) x xi ;;
        Ok (r + a * y * k)) (seq 0 (m s)) (b s) = Raise ValueError).
  { destruct (m s) as [|k] eqn:Hk; [lia | ]. cbn [seq for_each].
    rewrite (getitem_nth (alpha s) 0 0), (getitem_nth (Y s) 0 0),
      (getitem_nth (X s) 0 []) by lia.
    cbn [bind]. rewrite Hker. reflexivity. }
  unfold predict, decision_function. rewrite Hloop. split; reflexivity.
Qed.

Lemma predict_dimension_mismatch_witness :
  predict two_points_trained [1; 2; 3] = Raise ValueError /\
  decision_function two_points_trained (Arr1 [1; 2; 3]) = Raise ValueError.
Proof.
  apply (predict_dimension_mismatch two_points_trained [1; 2; 3]);
    [ left; reflexivity | by_computation
    | intros row [<- | [<- | []]]; reflexivity | by_computation | by_computation ].
Defined.

(** ** The labels given to [score] *)

Lemma score_loop_short {EX : Exp} (s : svm) (X_test : list (list Q))
  (y_test : list Q) (len : nat) :
  (forall i, (i < length X_test)%nat -> exists p, predict s (nth i X_test []) = Ok p) ->
  forall (start c0 : nat),
  (start <= length y_test)%nat -> (length y_test < start + len)%nat ->
  (start + len <= length X_test)%nat ->
  for_each (fun (right_count : nat) i =>
       x <- Py.getitem X_test i ;;
       res <- predict s x ;;
       y <- Py.getitem y_test i ;;
       Ok (if Qeq_bool (inject_Z res) y then S right_count else right_count))
     (seq start len) c0
  = Raise IndexError.
Proof.
  intros Hpred. induction len as [|len IH]; intros start c0 Hlo Hhi Hle; [lia | ].
  cbn [seq for_each].
  rewrite (getitem_nth X_test start []) by lia. cbn [bind].
  destruct (Hpred start) as (p & Hp); [lia | ]. rewrite Hp. cbn [bind].
  destruct (Nat.eq_dec start (length y_test)) as [Heq | Hne].
  - rewrite getitem_out_of_range by lia. reflexivity.
  - rewrite (getitem_nth y_test start 0) by lia. cbn [bind].
    apply IH; lia.
Qed.

(** [score] reads one label per evaluation sample: labels beyond
    [len(X_test)] are ignored, and with fewer labels than samples the call
    raises [IndexError]. *)
Theorem score_label_count {EX : Exp} (s : svm) (X_test : list (list Q))
  (y_test : list Q) :
  shapes_ok s = true -> rows_ok s ->
  (forall x : list Q, In x X_test -> length x = n s) ->
  (forall extra : list Q, X_test <> [] -> (length X_test <= length y_test)%nat ->
     score s X_test (y_test ++ extra) = score s X_test y_test) /\
  ((length y_test < length X_test)%nat -> score s X_test y_test = Raise IndexError).
Proof.
  intros Hs Hrows Hdim.
  assert (Hpred : forall i, (i < length X_test)%nat ->
            exists p, predict s (nth i X_test []) = Ok p).
  { intros i Hi. apply predict_total; auto. apply Hdim, nth_In, Hi. }
  split.
  - intros extra Hne Hlen.
    rewrite !score_run; auto.
    + unfold accuracy, matches. do 5 f_equal.
      apply filter_ext_in. intros i Hi. apply in_seq in Hi.
      rewrite app_nth1 by lia. reflexivity.
    + repeat split; auto.
    + repeat split; auto. rewrite length_app. lia.
  - intros Hshort. unfold score.
    rewrite (score_loop_short s X_test y_test (length X_test) Hpred 0 0); try lia.
    reflexivity.
Qed.

Lemma score_label_count_witness :
  score two_points_trained four_queries (four_labels ++ [1; -1])
  = score two_points_trained four_queries four_labels /\
  score two_points_trained four_queries [1; 1] = Raise IndexError.
Proof.
  destruct (score_label_count two_points_trained four_queries four_labels)
    as [Hextra _]; try by_computation.
  { intros row [<- | [<- | []]]; reflexivity. }
  { intros x [<- | [<- | [<- | [<- | []]]]]; reflexivity. }
  destruct (score_label_count two_points_trained four_queries [1; 1])
    as [_ Hshort]; try by_computation.
  { intros row [<- | [<- | []]]; reflexivity. }
  { intros x [<- | [<- | [<- | [<- | []]]]]; reflexivity. }
  split.
  - apply Hextra; [discriminate | by_computation].
  - apply Hshort. by_computation.
Defined.

(** ** Training with no pass at all *)

(** [fit] reports [passes + 1] after its loop, and [passes] is bound by the
    loop alone.  With [max_iter = 0] the loop body never runs, so [fit] never
    returns: it raises whatever [init_args] raised, and [UnboundLocalError]
    once [init_args] has built the model, which is the case for every
    rectangular feature matrix. *)
Theorem fit_without_passes_raises {G : Type} {RS : RandomSource G} {EX : Exp}
  (c : config) (features : list (list Q)) (labels : list Q)
  (X_test : option (list (list Q))) (y_test : option (list Q)) (g : G) :
  max_iter c = 0%nat ->
  (exists e : exn, fit c features labels X_test y_test g = Raise e) /\
  ((forall row : list Q, In row features -> length row = Py.ncols features) ->
   fit c features labels X_test y_test g = Raise UnboundLocalError).
Proof.
  intros Hzero.
  assert (Hfit : forall s : svm, init_args c features labels = Ok s ->
            fit c features labels X_test y_test g = Raise UnboundLocalError).
  { intros s Hs. unfold fit. rewrite Hs, Hzero. reflexivity. }
  split.
  - destruct (init_args c features labels) as [s | e] eqn:Hinit.
    + exists UnboundLocalError. apply (Hfit s). reflexivity.
    + exists e. unfold fit. rewrite Hinit. reflexivity.
  - intros Hrect.
    destruct (init_args_total c features labels (Py.ncols features) Hrect)
      as [s Hs].
    apply (Hfit s Hs).
Qed.

Lemma fit_without_passes_raises_witness :
  fit {| max_iter := 0; _kernel := "linear"; C := 1 |} two_points two_labels
      (Some four_queries) (Some four_labels) tt
  = Raise UnboundLocalError.
Proof.
  refine (proj2 (fit_without_passes_raises
                   {| max_iter := 0; _kernel := "linear"; C := 1 |}
                   two_points two_labels (Some four_queries) (Some four_labels)
                   tt _) _).
  - reflexivity.
  - intros row Hrow. vm_compute in Hrow.
    destruct Hrow as [<- | [<- | []]]; reflexivity.
Defined.
